(** * The test bus object of barista's dbus watcher

    A verification development for [base/watchers/dbus/testobject.go]:
    the fake bus object that tests use in place of a remote D-Bus object.
    The Go code is embedded as functions over an explicit world (the heap
    of services, connections and objects, the log of emitted signals, the
    clock, the goroutines and the channels), in a small monad with two ways
    of not returning: a panic, and waiting for a mutex that is held or for a
    channel that cannot take a value.  Handlers are closures of the test: they
    are stored by identity and run through an interpretation that may change
    the world, panic or wait. *)

From stdpp Require Import gmap strings list fin_maps.
From Stdlib Require Import ZArith Ascii.

#[local] Set Warnings "-register-all".
#[local] Open Scope string_scope.
#[local] Open Scope list_scope.
#[local] Open Scope Z_scope.

(** ** Dynamic values

    [interface{}] values are a tagged union of nil and of values that D-Bus
    can carry.  A [dbus.Variant] carries a value and the signature of its
    dynamic type; the signature is a function of the value, so a variant is
    determined by the value it wraps ([VariantOf]), and the zero struct
    [dbus.Variant{}] is a case of its own.  [dbus.MakeVariant], which panics
    on nil, comes with the monad below. *)

Inductive value : Type :=
| VNil
| VBool (b : bool)
| VInt (n : Z)
| VString (s : string)
| VSlice (l : list value)
| VVariant (x : Variant)
| VVariantMap (m : gmap string Variant)
with Variant : Type :=
| VariantZero
| VariantOf (v : value).

(** Go's [error]: [None] is [nil], [errors.New msg] is [Some msg]. *)
Definition error := option string.

Module errors.
Definition New (msg : string) : error := Some msg.
End errors.

Module time.
(** [time.Duration] counts nanoseconds. *)
Definition Millisecond : Z := 1000000.
End time.

(** ** The part of godbus the file uses *)

Module dbus.
Definition ObjectPath := string.
(** [dbus.Flags] is a [uint8]. *)
Definition Flags := Z.

Record MatchOption := { key : string; val : string }.

(** [dbus.Call].  [Done] is a channel of capacity one; the field records
    whether the call itself has been sent on it. *)
Record Call := {
  Destination : string;
  Path : ObjectPath;
  Method : string;
  Args : list value;
  Body : list value;
  Err : error;
  Done : bool;
}.

Definition with_Err (e : error) (c : Call) : Call :=
  {| Destination := Destination c; Path := Path c; Method := Method c;
     Args := Args c; Body := Body c; Err := e; Done := Done c |}.

Definition with_Body (b : list value) (c : Call) : Call :=
  {| Destination := Destination c; Path := Path c; Method := Method c;
     Args := Args c; Body := b; Err := Err c; Done := Done c |}.

Definition send_Done (c : Call) : Call :=
  {| Destination := Destination c; Path := Path c; Method := Method c;
     Args := Args c; Body := Body c; Err := Err c; Done := true |}.
End dbus.

(** ** The heap *)

(** Addresses of heap records.  An address that the heap does not hold plays
    the part of a nil pointer: dereferencing it panics. *)
Definition addr := nat.

(** [func(...interface{}) ([]interface{}, error)]: a closure of the test,
    known by its identity.  What it does when called is given by [invoke],
    below. *)
Definition handler := nat.

(** A match rule as [dbusMatchOptionMap] normalises it: option key to option
    value. *)
Abbreviation rule := (gmap string string).

(** Modelled from the spec: [TestBusService] is declared outside
    testobject.go; the object uses its identity ([id]) and its
    registration state, which [checkRegistered] probes. *)
Record TestBusService := {
  id : string;
  registered : bool;
}.

(** Modelled from the spec: [testBusConnection] is declared outside
    testobject.go; the object uses its mutex, its match table (signal name to
    the ordered rules) and its open or closed state, which [checkOpen]
    probes. *)
Record testBusConnection := {
  conn_mu : bool;
  closed : bool;
  matches : gmap string (list rule);
}.

(** [testBusObject]: [mu] is [true] while the mutex is held; a [nil] function
    stored in [calls] is [None]. *)
Record testBusObject := {
  mu : bool;
  svc : addr;
  dest : string;
  path : dbus.ObjectPath;
  props : gmap string value;
  calls : gmap string (option handler);
}.

(** [TestBusObject]: the embedded pointer and the connection, [None] when the
    object was obtained directly from a service. *)
Record TestBusObject := {
  obj : addr;
  conn : option addr;
}.

(** A signal as handed to the bus: name, sender, path and body. *)
Record Signal := {
  sig_name : string;
  sig_sender : string;
  sig_path : dbus.ObjectPath;
  sig_body : list value;
}.

(** A channel of [*dbus.Call]: its capacity, the values in its buffer, the
    values handed directly to receivers, whether it is closed, and how many
    receivers are waiting on it. *)
Record channel := {
  ch_cap : nat;
  ch_buf : list (option dbus.Call);
  ch_handed : list (option dbus.Call);
  ch_closed : bool;
  ch_receivers : nat;
}.

(** The goroutine that [Go] starts, [func() { time.Sleep(..); ch <- t.Call(..) }],
    with the variables its closure captures.  Its program point is before the
    sleep, inside it, to end at [wake], or at the send, with the record that
    [Call] returned, waiting for the channel. *)
Inductive pc := AtSleep | AtSend (wake : Z) | Sending (c : option dbus.Call).

Record goroutine := {
  g_pc : pc;
  g_t : TestBusObject;
  g_method : string;
  g_flags : dbus.Flags;
  (** the channel, [None] for a nil channel *)
  g_ch : option addr;
  g_args : list value;
}.

Record world := {
  services : gmap addr TestBusService;
  conns : gmap addr testBusConnection;
  objects : gmap addr testBusObject;
  (** what [bus.emit] has been handed, oldest first *)
  emitted : list Signal;
  (** the monotonic clock, in nanoseconds *)
  now : Z;
  goroutines : list goroutine;
  chans : gmap addr channel;
}.

Definition set_conns (f : gmap addr testBusConnection → gmap addr testBusConnection)
    (w : world) : world :=
  {| services := services w; conns := f (conns w); objects := objects w;
     emitted := emitted w; now := now w; goroutines := goroutines w;
     chans := chans w |}.

Definition set_objects (f : gmap addr testBusObject → gmap addr testBusObject)
    (w : world) : world :=
  {| services := services w; conns := conns w; objects := f (objects w);
     emitted := emitted w; now := now w; goroutines := goroutines w;
     chans := chans w |}.

Definition set_emitted (f : list Signal → list Signal) (w : world) : world :=
  {| services := services w; conns := conns w; objects := objects w;
     emitted := f (emitted w); now := now w; goroutines := goroutines w;
     chans := chans w |}.

Definition set_goroutines (f : list goroutine → list goroutine) (w : world) : world :=
  {| services := services w; conns := conns w; objects := objects w;
     emitted := emitted w; now := now w; goroutines := f (goroutines w);
     chans := chans w |}.

Definition set_chans (f : gmap addr channel → gmap addr channel)
    (w : world) : world :=
  {| services := services w; conns := conns w; objects := objects w;
     emitted := emitted w; now := now w; goroutines := goroutines w;
     chans := f (chans w) |}.

Definition set_mu (b : bool) (o : testBusObject) : testBusObject :=
  {| mu := b; svc := svc o; dest := dest o; path := path o;
     props := props o; calls := calls o |}.

Definition set_props (f : gmap string value → gmap string value)
    (o : testBusObject) : testBusObject :=
  {| mu := mu o; svc := svc o; dest := dest o; path := path o;
     props := f (props o); calls := calls o |}.

Definition set_calls (f : gmap string (option handler) → gmap string (option handler))
    (o : testBusObject) : testBusObject :=
  {| mu := mu o; svc := svc o; dest := dest o; path := path o;
     props := props o; calls := f (calls o) |}.

Definition set_conn_mu (b : bool) (c : testBusConnection) : testBusConnection :=
  {| conn_mu := b; closed := closed c; matches := matches c |}.

Definition set_matches (f : gmap string (list rule) → gmap string (list rule))
    (c : testBusConnection) : testBusConnection :=
  {| conn_mu := conn_mu c; closed := closed c; matches := f (matches c) |}.

(** ** The monad of operations *)

(** What a panic is about, and where it was raised: a panic that comes out
    of a handler is kept apart from the panics of the operation that called
    the handler. *)
Inductive panic :=
| NilDereference
| ServiceUnregistered
| ConnectionClosed
(** [dbus.MakeVariant] of a value that has no D-Bus signature *)
| InvalidType
(** a send on a closed channel *)
| SendOnClosedChannel
(** [panic(msg)] of the test's own code *)
| Raised (msg : string)
(** the panic [p], raised while a handler ran *)
| InHandler (p : panic).

(** An operation returns a value and a new world, panics, or waits: for a
    mutex that is held, or for a channel that cannot take a value. *)
Inductive outcome (A : Type) : Type :=
| Returned (a : A) (w : world)
| Panicked (p : panic)
| Blocked.
Arguments Returned {A} a w.
Arguments Panicked {A} p.
Arguments Blocked {A}.

Definition M (A : Type) : Type := world → outcome A.

Definition ret {A} (a : A) : M A := fun w => Returned a w.

Definition bind {A B} (m : M A) (k : A → M B) : M B := fun w =>
  match m w with
  | Returned a w' => k a w'
  | Panicked p => Panicked p
  | Blocked => Blocked
  end.

Definition raise {A} (p : panic) : M A := fun _ => Panicked p.

Notation "'let!' x := m 'in' k" := (bind m (fun x => k))
  (at level 10, x name, m at level 100, k at level 200, only parsing).
Notation "'do!' m 'in' k" := (bind m (fun _ => k))
  (at level 10, m at level 100, k at level 200, only parsing).

(** Dereferencing. *)
Definition deref_obj (a : addr) : M testBusObject := fun w =>
  match objects w !! a with
  | Some o => Returned o w
  | None => Panicked NilDereference
  end.

Definition deref_conn (a : addr) : M testBusConnection := fun w =>
  match conns w !! a with
  | Some c => Returned c w
  | None => Panicked NilDereference
  end.

Definition deref_svc (a : addr) : M TestBusService := fun w =>
  match services w !! a with
  | Some s => Returned s w
  | None => Panicked NilDereference
  end.

Definition modify_obj (a : addr) (f : testBusObject → testBusObject) : M unit :=
  let! o := deref_obj a in
  fun w => Returned tt (set_objects (insert a (f o)) w).

Definition modify_conn (a : addr) (f : testBusConnection → testBusConnection) : M unit :=
  let! c := deref_conn a in
  fun w => Returned tt (set_conns (insert a (f c)) w).

(** [sync.Mutex]: locking a held mutex does not return. *)
Definition Lock_obj (a : addr) : M unit :=
  let! o := deref_obj a in
  if mu o then (fun _ => Blocked) else modify_obj a (set_mu true).

Definition Unlock_obj (a : addr) : M unit := modify_obj a (set_mu false).

Definition Lock_conn (a : addr) : M unit :=
  let! c := deref_conn a in
  if conn_mu c then (fun _ => Blocked) else modify_conn a (set_conn_mu true).

Definition Unlock_conn (a : addr) : M unit := modify_conn a (set_conn_mu false).

(** ** What testobject.go takes from the rest of the package

    The file calls helpers and names constants that the package declares in
    other files.  They are parameters of the development: every theorem holds
    whatever they are. *)
Class Package := {
  (** [expand(iface, name)]: the fully qualified form of a name *)
  expand : string → string → string;
  (** [dbusMatchOptionMap(options)]: the options as a map from key to value *)
  dbusMatchOptionMap : list dbus.MatchOption → rule;
  (** [propsChanged.String()] *)
  propsChanged : string;
  bus : string;
  busPath : dbus.ObjectPath;
}.

(** [for k := range m] visits every key of [m] once, in an order the language
    leaves open. *)
Class MapRange := {
  range_keys : rule → list string;
  range_keys_perm : ∀ m, range_keys m ≡ₚ (map_to_list m).*1;
}.

(** The keys [AddMatchSignal] lets through: [k == "path" || k ==
    "path_namespace" || k == "sender"], or [strings.HasPrefix(k, "arg")]. *)
Definition supported (k : string) : bool :=
  bool_decide (k = "path") || bool_decide (k = "path_namespace")
  || bool_decide (k = "sender") || String.prefix "arg" k.

(** The loop of [AddMatchSignal] over the keys in the order [ks]: the first
    key that is not let through, if any. *)
Fixpoint first_unsupported (ks : list string) : option string :=
  match ks with
  | [] => None
  | k :: ks' => if supported k then first_unsupported ks' else Some k
  end.

(** [t.calls[method]]: a missing key reads as the nil function. *)
Definition lookup_call (o : testBusObject) (method : string) : option handler :=
  default None (calls o !! method).

(** [t.conn.matches[name]]: a missing key reads as the nil slice. *)
Definition lookup_matches (c : testBusConnection) (name : string) : list rule :=
  default [] (matches c !! name).

(** [dbus.MakeVariant(v)]: the variant of [v]; nil has no signature, and
    the library panics on it. *)
Definition MakeVariant (v : value) : M Variant :=
  match v with
  | VNil => raise InvalidType
  | _ => ret (VariantOf v)
  end.

(** [ch <- v].  A send on a nil channel waits for ever; on a closed channel
    it panics; it hands the value to a waiting receiver if there is one, puts
    it in the buffer if there is room, and waits otherwise. *)
Definition send (ch : option addr) (v : option dbus.Call) : M unit := fun w =>
  match ch with
  | None => Blocked
  | Some a =>
      match chans w !! a with
      | None => Blocked
      | Some c =>
          if ch_closed c then Panicked SendOnClosedChannel
          else
            match ch_receivers c with
            | S n =>
                Returned tt
                  (set_chans
                     (insert a {| ch_cap := ch_cap c; ch_buf := ch_buf c;
                                  ch_handed := ch_handed c ++ [v];
                                  ch_closed := false; ch_receivers := n |}) w)
            | O =>
                if (length (ch_buf c) <? ch_cap c)%nat
                then Returned tt
                       (set_chans
                          (insert a {| ch_cap := ch_cap c;
                                       ch_buf := ch_buf c ++ [v];
                                       ch_handed := ch_handed c;
                                       ch_closed := false; ch_receivers := O |})
                          w)
                else Blocked
            end
      end
  end.

(** What the closures of the test do when they are called: anything an
    operation can do. *)
Class Closures := {
  invoke : handler → list value → M (list value * error);
}.

(** [h(args...)], as seen by the operation that calls it. *)
Definition run_handler `{Closures} (h : handler) (args : list value)
    : M (list value * error) := fun w =>
  match invoke h args w with
  | Returned r w' => Returned r w'
  | Panicked p => Panicked (InHandler p)
  | Blocked => Blocked
  end.

Section TestObject.
Context `{Pkg : Package} `{Rng : MapRange} `{Cls : Closures}.

(** Modelled from the spec: [TestBusService.checkRegistered] is declared
    outside testobject.go; it is the liveness probe that panics when the
    service is no longer registered. *)
Definition checkRegistered (s : addr) : M unit :=
  let! sv := deref_svc s in
  if registered sv then ret tt else raise ServiceUnregistered.

(** Modelled from the spec: [testBusConnection.checkOpen] is declared
    outside testobject.go; it is the liveness probe that panics when the
    connection is closed. *)
Definition checkOpen (c : addr) : M unit :=
  let! cn := deref_conn c in
  if closed cn then raise ConnectionClosed else ret tt.

(** Modelled from the spec: [TestBus.emit] is declared outside
    testobject.go; it fans the signal out to the listeners.  The embedding
    records what it is handed. *)
Definition bus_emit (name sender : string) (p : dbus.ObjectPath)
    (args : list value) : M unit := fun w =>
  Returned tt
    (set_emitted (fun l => l ++ [{| sig_name := name; sig_sender := sender;
                                    sig_path := p; sig_body := args |}]) w).

Definition check (t : TestBusObject) : M unit :=
  let! o := deref_obj (obj t) in
  do! checkRegistered (svc o) in
  match conn t with
  | Some c => checkOpen c
  | None => ret tt
  end.

Definition Call (t : TestBusObject) (method : string) (flags : dbus.Flags)
    (args : list value) : M (option dbus.Call) :=
  do! check t in
  let! o := deref_obj (obj t) in
  let method := expand (dest o) method in
  let call :=
    dbus.send_Done
      {| dbus.Destination := dest o; dbus.Path := path o;
         dbus.Method := method; dbus.Args := args;
         dbus.Body := []; dbus.Err := None; dbus.Done := false |} in
  do! Lock_obj (obj t) in
  let! o := deref_obj (obj t) in
  let! call :=
    match lookup_call o method with
    | None =>
        ret (dbus.with_Err (errors.New ("No such method: " +:+ method)) call)
    | Some h =>
        let! r := run_handler h args in
        ret (dbus.with_Err r.2 (dbus.with_Body r.1 call))
    end in
  do! Unlock_obj (obj t) in
  ret (Some call).

Definition CallWithContext {Ctx : Type} (ctx : Ctx) (t : TestBusObject)
    (method : string) (flags : dbus.Flags) (args : list value)
    : M (option dbus.Call) :=
  Call t method flags args.

Definition Go (t : TestBusObject) (method : string) (flags : dbus.Flags)
    (ch : option addr) (args : list value) : M (option dbus.Call) := fun w =>
  Returned None
    (set_goroutines
       (fun gs => gs ++ [{| g_pc := AtSleep; g_t := t; g_method := method;
                            g_flags := flags; g_ch := ch; g_args := args |}])
       w).

Definition GoWithContext {Ctx : Type} (ctx : Ctx) (t : TestBusObject)
    (method : string) (flags : dbus.Flags) (ch : option addr)
    (args : list value) : M (option dbus.Call) :=
  Go t method flags ch args.

Definition matchCallResult (method : string) (err : error) : option dbus.Call :=
  Some (dbus.send_Done
          {| dbus.Destination := bus; dbus.Path := busPath;
             dbus.Method := expand bus method;
             dbus.Args := [VString "should not matter"];
             dbus.Body := []; dbus.Err := err; dbus.Done := false |}).

Definition AddMatchSignal (t : TestBusObject) (iface member : string)
    (options : list dbus.MatchOption) : M (option dbus.Call) :=
  let name := iface +:+ "." +:+ member in
  do! check t in
  let optMap := dbusMatchOptionMap options in
  match first_unsupported (range_keys optMap) with
  | Some k =>
      ret (matchCallResult "AddMatch"
             (errors.New ("Unsupported match type: " +:+ k)))
  | None =>
      match conn t with
      | None => raise NilDereference
      | Some c =>
          do! Lock_conn c in
          let! cn := deref_conn c in
          do! modify_conn c
                (set_matches (insert name (lookup_matches cn name ++ [optMap]))) in
          do! Unlock_conn c in
          ret (matchCallResult "AddMatch" None)
      end
  end.

Definition RemoveMatchSignal (t : TestBusObject) (iface member : string)
    (options : list dbus.MatchOption) : M (option dbus.Call) :=
  let name := iface +:+ "." +:+ member in
  do! check t in
  match conn t with
  | None => raise NilDereference
  | Some c =>
      do! Lock_conn c in
      let! cn := deref_conn c in
      let ms := lookup_matches cn name in
      let optMap := dbusMatchOptionMap options in
      match list_find (fun m => m = optMap) ms with
      | Some (i, _) =>
          do! modify_conn c
                (set_matches (insert name (take i ms ++ drop (S i) ms))) in
          do! Unlock_conn c in
          ret (matchCallResult "RemoveMatch" None)
      | None =>
          do! Unlock_conn c in
          ret (matchCallResult "RemoveMatch" (errors.New "Match not found"))
      end
  end.

Definition GetProperty (t : TestBusObject) (p : string) : M (Variant * error) :=
  do! check t in
  do! Lock_obj (obj t) in
  let! o := deref_obj (obj t) in
  let! r :=
    match props o !! p with
    | Some val =>
        let! v := MakeVariant val in
        ret (v, None)
    | None => ret (VariantZero, errors.New ("No such property: " +:+ p))
    end in
  do! Unlock_obj (obj t) in
  ret r.

Definition Destination (t : TestBusObject) : M string :=
  do! check t in
  let! o := deref_obj (obj t) in
  ret (dest o).

Definition Path (t : TestBusObject) : M dbus.ObjectPath :=
  do! check t in
  let! o := deref_obj (obj t) in
  ret (path o).

Definition Emit (t : TestBusObject) (name : string) (args : list value) : M unit :=
  let! o := deref_obj (obj t) in
  let name := expand (dest o) name in
  let! s := deref_svc (svc o) in
  bus_emit name (id s) (path o) args.

Definition SetProperty (t : TestBusObject) (prop : string) (v : value)
    (signal : bool) : M unit :=
  do! check t in
  do! Lock_obj (obj t) in
  let! o := deref_obj (obj t) in
  let prop := expand (dest o) prop in
  do! modify_obj (obj t) (set_props (insert prop v)) in
  do! (if signal
       then
         let! var := MakeVariant v in
         Emit t propsChanged [VString (dest o); VVariantMap {[ prop := var ]}]
       else ret tt) in
  Unlock_obj (obj t).

Definition On (t : TestBusObject) (method : string) (do : option handler)
    : M unit :=
  do! Lock_obj (obj t) in
  let! o := deref_obj (obj t) in
  do! modify_obj (obj t) (set_calls (insert (expand (dest o) method) do)) in
  Unlock_obj (obj t).

(** *** The goroutine of [Go] *)

(** One scheduling of the goroutine [g] in the world [w]: it falls asleep;
    it is not runnable, its sleep not being over; it delivers the record on
    the channel; it panics; it waits inside [Call] for the mutex; or it has
    its record and waits for the channel. *)
Inductive progress :=
| Asleep (g' : goroutine)
| NotRunnable
| Delivered (ch : option addr) (c : option dbus.Call) (w' : world)
| Crashed (p : panic)
| Waiting
| Parked (g' : goroutine) (w' : world).

(** [ch <- c], by the goroutine [g] that has the record [c]. *)
Definition deliver (g : goroutine) (c : option dbus.Call) (w : world) : progress :=
  match send (g_ch g) c w with
  | Returned _ w' => Delivered (g_ch g) c w'
  | Panicked p => Crashed p
  | Blocked =>
      Parked {| g_pc := Sending c; g_t := g_t g; g_method := g_method g;
                g_flags := g_flags g; g_ch := g_ch g; g_args := g_args g |} w
  end.

Definition resume (g : goroutine) (w : world) : progress :=
  match g_pc g with
  | AtSleep =>
      Asleep {| g_pc := AtSend (now w + 505 * time.Millisecond);
                g_t := g_t g; g_method := g_method g; g_flags := g_flags g;
                g_ch := g_ch g; g_args := g_args g |}
  | AtSend wake =>
      if now w <? wake then NotRunnable
      else match Call (g_t g) (g_method g) (g_flags g) (g_args g) w with
           | Returned c w' => deliver g c w'
           | Panicked p => Crashed p
           | Blocked => Waiting
           end
  | Sending c => deliver g c w
  end.

End TestObject.

(** ** Notions the statements use *)

Section Notions.
Context `{Pkg : Package}.

(** An object is live in a world when its liveness check returns. *)
Definition live (t : TestBusObject) (w : world) : Prop :=
  check t w = Returned tt w.

(** The object behind the handle is [o], in the heap and with its mutex free. *)
Definition points_to (t : TestBusObject) (o : testBusObject) (w : world) : Prop :=
  objects w !! obj t = Some o ∧ mu o = false.

(** The connection behind the handle is [cn], at [c], with its mutex free. *)
Definition bound_to (t : TestBusObject) (c : addr) (cn : testBusConnection)
    (w : world) : Prop :=
  conn t = Some c ∧ conns w !! c = Some cn ∧ conn_mu cn = false.

(** The world [w] with the mutex of the object taken, as a handler finds
    it, and with the mutex given back. *)
Definition locked (t : TestBusObject) (o : testBusObject) (w : world) : world :=
  set_objects (insert (obj t) (set_mu true o)) w.

Definition unlocked (t : TestBusObject) (o : testBusObject) (w : world) : world :=
  set_objects (insert (obj t) (set_mu false o)) w.

(** The record [Call] builds before it looks the handler up. *)
Definition call_sent (o : testBusObject) (method : string) (args : list value)
    : dbus.Call :=
  {| dbus.Destination := dest o; dbus.Path := path o;
     dbus.Method := expand (dest o) method; dbus.Args := args;
     dbus.Body := []; dbus.Err := None; dbus.Done := true |}.

(** The signal [SetProperty] emits for the property stored under [key]. *)
Definition props_changed_signal (o : testBusObject) (s : TestBusService)
    (key : string) (v : value) : Signal :=
  {| sig_name := expand (dest o) propsChanged;
     sig_sender := id s;
     sig_path := path o;
     sig_body := [VString (dest o); VVariantMap {[ key := VariantOf v ]}] |}.

(** The goroutine [Go] starts, before its first step. *)
Definition spawned (t : TestBusObject) (method : string) (flags : dbus.Flags)
    (ch : option addr) (args : list value) : goroutine :=
  {| g_pc := AtSleep; g_t := t; g_method := method; g_flags := flags;
     g_ch := ch; g_args := args |}.

End Notions.

(** An operation that, in no world, panics because of a closed connection. *)
Definition never_ConnectionClosed {A} (m : M A) : Prop :=
  ∀ w, m w ≠ Panicked ConnectionClosed.

(** ** A concrete package and world

    An instance of the parameters, to run the embedding on concrete inputs.
    [expand] prefixes a name without a dot with the interface and leaves a
    qualified name alone, which is how the file uses it: [matchCallResult]
    expands the bare ["AddMatch"] against the bus name, and [Emit] expands the
    already qualified [propsChanged] name.  Match options are folded into a
    map, and [range] visits the keys in the order of [map_to_list]. *)
Module Sample.

Fixpoint has_dot (s : string) : bool :=
  match s with
  | EmptyString => false
  | String c s' => if Ascii.eqb c "."%char then true else has_dot s'
  end.

#[export] Instance pkg : Package := {|
  expand iface name := if has_dot name then name else iface +:+ "." +:+ name;
  dbusMatchOptionMap options :=
    foldl (fun m o => <[dbus.key o := dbus.val o]> m) ∅ options;
  propsChanged := "org.freedesktop.DBus.Properties.PropertiesChanged";
  bus := "org.freedesktop.DBus";
  busPath := "/org/freedesktop/DBus";
|}.

#[export] Instance rng : MapRange := {|
  range_keys m := (map_to_list m).*1;
  range_keys_perm m := reflexivity _;
|}.

Definition the_svc (reg : bool) : TestBusService :=
  {| id := ":1.7"; registered := reg |}.

Definition the_conn (cl : bool) : testBusConnection :=
  {| conn_mu := false; closed := cl; matches := ∅ |}.

Definition the_obj : testBusObject :=
  {| mu := false; svc := 0%nat; dest := "org.example.Player";
     path := "/org/example/Player"; props := ∅; calls := ∅ |}.

(** One service, one connection and one object; [reg] and [cl] say whether
    the service is registered and the connection closed. *)
Definition w0 (reg cl : bool) : world :=
  {| services := {[ 0%nat := the_svc reg ]};
     conns := {[ 0%nat := the_conn cl ]};
     objects := {[ 0%nat := the_obj ]};
     emitted := []; now := 0; goroutines := []; chans := ∅ |}.

(** The object as obtained from the connection, and from the service. *)
Definition bound : TestBusObject := {| obj := 0%nat; conn := Some 0%nat |}.
Definition unbound : TestBusObject := {| obj := 0%nat; conn := None |}.

(** Five closures of a test: [echo] answers with its arguments, [shout]
    with values and an error, [pinger] emits a signal on the object before it
    answers, [boom] panics, and [reenter] registers a handler on the object it
    is called on. *)
Definition echo : handler := 0%nat.
Definition shout : handler := 1%nat.
Definition pinger : handler := 2%nat.
Definition boom : handler := 3%nat.
Definition reenter : handler := 4%nat.

#[export] Instance cls : Closures := {|
  invoke h args :=
    match h with
    | 0%nat => ret (VString "pong" :: args, None)
    | 1%nat => ret ([VString "PONG"], Some "too loud")
    | 2%nat => do! Emit bound "Pinged" args in ret ([], None)
    | 3%nat => raise (Raised "boom")
    | 4%nat => do! On bound "Other" None in ret ([], None)
    | _ => ret ([], None)
    end;
|}.

(** The world after ["Volume"] has been set to [3] on the sample object. *)
Definition w_volume : world :=
  set_objects
    (insert 0%nat
       (set_props (insert "org.example.Player.Volume" (VInt 3)) the_obj))
    (w0 true false).

(** Options that [AddMatchSignal] accepts, and options it refuses. *)
Definition good_options : list dbus.MatchOption :=
  [ {| dbus.key := "path"; dbus.val := "/org/example/Player" |};
    {| dbus.key := "arg0"; dbus.val := "org.example.Player" |} ].

Definition bad_options : list dbus.MatchOption :=
  [ {| dbus.key := "sender"; dbus.val := ":1.7" |};
    {| dbus.key := "interface"; dbus.val := "org.example.Player" |} ].

(** An open channel of capacity [cap] with nothing in it and [r] receivers
    waiting. *)
Definition empty_chan (cap r : nat) : channel :=
  {| ch_cap := cap; ch_buf := []; ch_handed := []; ch_closed := false;
     ch_receivers := r |}.

(** The sample world with the clock at [n] nanoseconds and three channels:
    7 has room for one record, 8 is unbuffered with nobody receiving, 9 is
    closed. *)
Definition at_time (n : Z) : world :=
  {| services := services (w0 true false);
     conns := conns (w0 true false);
     objects := objects (w0 true false);
     emitted := []; now := n; goroutines := [];
     chans := {[ 7%nat := empty_chan 1 0; 8%nat := empty_chan 0 0;
                 9%nat := {| ch_cap := 1; ch_buf := []; ch_handed := [];
                             ch_closed := true; ch_receivers := 0%nat |} ]} |}.

End Sample.

(** ** Liveness *)

Ltac unfold_ops :=
  unfold On, Call, CallWithContext, GetProperty, SetProperty, Emit, bus_emit,
    Destination, Path, AddMatchSignal, RemoveMatchSignal,
    Lock_obj, Unlock_obj, Lock_conn, Unlock_conn, modify_obj, modify_conn.

Ltac unfold_monad :=
  unfold bind, ret, raise, deref_obj, deref_conn, deref_svc.

Section Liveness.
Context `{Pkg : Package}.

Lemma check_world t w a w' : check t w = Returned a w' → w' = w.
Proof.
  unfold check, checkRegistered, checkOpen. unfold_monad.
  destruct (objects w !! obj t) as [o|]; [|discriminate].
  destruct (services w !! svc o) as [s|]; [|discriminate].
  destruct (registered s); [|discriminate].
  destruct (conn t) as [c|]; [|by inversion 1].
  destruct (conns w !! c) as [cn|]; [|discriminate].
  destruct (closed cn); [discriminate|by inversion 1].
Qed.

Lemma live_inv t w :
  live t w ↔
  ∃ o s, objects w !! obj t = Some o ∧ services w !! svc o = Some s
         ∧ registered s = true
         ∧ ∀ c, conn t = Some c → ∃ cn, conns w !! c = Some cn ∧ closed cn = false.
Proof.
  unfold live, check, checkRegistered, checkOpen. unfold_monad. split.
  - destruct (objects w !! obj t) as [o|]; [|discriminate].
    destruct (services w !! svc o) as [s|] eqn:Hs; [|discriminate].
    destruct (registered s) eqn:Hr; [|discriminate].
    intros H. exists o, s. repeat split; try done.
    intros c Hc. rewrite Hc in H.
    destruct (conns w !! c) as [cn|]; [|discriminate].
    destruct (closed cn) eqn:Hcl; [discriminate|]. by exists cn.
  - intros (o & s & -> & Hs & Hr & Hc). rewrite Hs, Hr.
    destruct (conn t) as [c|]; [|done].
    destruct (Hc c eq_refl) as (cn & -> & ->). done.
Qed.

(** Liveness reads the service of the object, the services and the
    connections, and nothing else. *)
Lemma live_transfer t w w' o o' :
  objects w !! obj t = Some o → objects w' !! obj t = Some o' →
  svc o' = svc o → services w' = services w → conns w' = conns w →
  live t w → live t w'.
Proof.
  intros Ho Ho' Hsvc Hs Hc. rewrite !live_inv.
  intros (o1 & s & Ho1 & Hs1 & Hr & Hcn).
  assert (o1 = o) as -> by congruence.
  exists o', s. rewrite Hsvc, Hs, Hc. done.
Qed.

End Liveness.

(** ** The primitives, step by step *)

Lemma bind_Returned {A B} (m : M A) (k : A → M B) w a w' :
  m w = Returned a w' → bind m k w = k a w'.
Proof. unfold bind. by intros ->. Qed.

Lemma bind_Panicked {A B} (m : M A) (k : A → M B) w p :
  m w = Panicked p → bind m k w = Panicked p.
Proof. unfold bind. by intros ->. Qed.

Lemma deref_obj_eq a o w : objects w !! a = Some o → deref_obj a w = Returned o w.
Proof. unfold deref_obj. by intros ->. Qed.

Lemma deref_conn_eq a c w : conns w !! a = Some c → deref_conn a w = Returned c w.
Proof. unfold deref_conn. by intros ->. Qed.

Lemma deref_svc_eq a s w : services w !! a = Some s → deref_svc a w = Returned s w.
Proof. unfold deref_svc. by intros ->. Qed.

Lemma modify_obj_eq a f o w :
  objects w !! a = Some o →
  modify_obj a f w = Returned tt (set_objects (insert a (f o)) w).
Proof. intros H. unfold modify_obj. by rewrite (bind_Returned _ _ _ _ _ (deref_obj_eq _ _ _ H)). Qed.

Lemma modify_conn_eq a f c w :
  conns w !! a = Some c →
  modify_conn a f w = Returned tt (set_conns (insert a (f c)) w).
Proof. intros H. unfold modify_conn. by rewrite (bind_Returned _ _ _ _ _ (deref_conn_eq _ _ _ H)). Qed.

Lemma Lock_obj_eq a o w :
  objects w !! a = Some o → mu o = false →
  Lock_obj a w = Returned tt (set_objects (insert a (set_mu true o)) w).
Proof.
  intros H Hmu. unfold Lock_obj.
  rewrite (bind_Returned _ _ _ _ _ (deref_obj_eq _ _ _ H)), Hmu.
  by apply modify_obj_eq.
Qed.

Lemma Lock_conn_eq a c w :
  conns w !! a = Some c → conn_mu c = false →
  Lock_conn a w = Returned tt (set_conns (insert a (set_conn_mu true c)) w).
Proof.
  intros H Hmu. unfold Lock_conn.
  rewrite (bind_Returned _ _ _ _ _ (deref_conn_eq _ _ _ H)), Hmu.
  by apply modify_conn_eq.
Qed.

Lemma lookup_set_objects a o w :
  objects (set_objects (insert a o) w) !! a = Some o.
Proof. simpl. apply lookup_insert_eq. Qed.

Lemma lookup_set_conns a c w :
  conns (set_conns (insert a c) w) !! a = Some c.
Proof. simpl. apply lookup_insert_eq. Qed.

Lemma set_objects_insert a o1 o2 w :
  set_objects (insert a o2) (set_objects (insert a o1) w) = set_objects (insert a o2) w.
Proof. unfold set_objects. simpl. by rewrite insert_insert_eq. Qed.

Lemma set_conns_insert a c1 c2 w :
  set_conns (insert a c2) (set_conns (insert a c1) w) = set_conns (insert a c2) w.
Proof. unfold set_conns. simpl. by rewrite insert_insert_eq. Qed.

Lemma set_objects_id a o w :
  objects w !! a = Some o → set_objects (insert a o) w = w.
Proof. intros H. destruct w; unfold set_objects; simpl in *. by rewrite insert_id. Qed.

Lemma set_conns_id a c w :
  conns w !! a = Some c → set_conns (insert a c) w = w.
Proof. intros H. destruct w; unfold set_conns; simpl in *. by rewrite insert_id. Qed.

Lemma set_mu_unlock o : mu o = false → set_mu false (set_mu true o) = o.
Proof. destruct o; simpl; by intros ->. Qed.

Lemma set_conn_mu_unlock c :
  conn_mu c = false → set_conn_mu false (set_conn_mu true c) = c.
Proof. destruct c; simpl; by intros ->. Qed.

(** Run the next primitive of a chain of binds. *)
Ltac mstep tac := erewrite bind_Returned by tac.
Ltac mstep_obj :=
  first
    [ mstep ltac:(apply Lock_obj_eq; [eassumption || apply lookup_set_objects | done])
    | mstep ltac:(apply deref_obj_eq; eassumption || apply lookup_set_objects)
    | mstep ltac:(apply modify_obj_eq; eassumption || apply lookup_set_objects) ].
Ltac mstep_conn :=
  first
    [ mstep ltac:(apply Lock_conn_eq; [eassumption || apply lookup_set_conns | done])
    | mstep ltac:(apply deref_conn_eq; eassumption || apply lookup_set_conns)
    | mstep ltac:(apply modify_conn_eq; eassumption || apply lookup_set_conns) ].

(** ** What each operation computes *)

Section Operations.
Context `{Pkg : Package} `{Rng : MapRange} `{Cls : Closures}.

(** [Call] on a live object: without a handler it answers by itself; with
    one, it runs the handler in the world where the mutex is taken, and
    whatever the handler does decides what becomes of the call. *)
Lemma Call_spec t o method flags args w :
  live t w → points_to t o w →
  Call t method flags args w =
  match lookup_call o (expand (dest o) method) with
  | None =>
      Returned
        (Some (dbus.with_Err
                 (errors.New ("No such method: " +:+ expand (dest o) method))
                 (call_sent o method args)))
        w
  | Some h =>
      match invoke h args (locked t o w) with
      | Returned r w' =>
          (do! Unlock_obj (obj t) in
           ret (Some (dbus.with_Err r.2
                        (dbus.with_Body r.1 (call_sent o method args))))) w'
      | Panicked p => Panicked (InHandler p)
      | Blocked => Blocked
      end
  end.
Proof.
  intros Hl [Ho Hmu]. unfold Call, Unlock_obj.
  mstep ltac:(exact Hl). do 3 mstep_obj.
  replace (lookup_call (set_mu true o) (expand (dest o) method))
    with (lookup_call o (expand (dest o) method)) by done.
  destruct (lookup_call o (expand (dest o) method)) as [h|].
  - unfold bind at 1. unfold bind at 1. unfold run_handler, locked.
    destruct (invoke h args _) as [r w'| |]; reflexivity.
  - erewrite bind_Returned by reflexivity.
    erewrite bind_Returned by (apply modify_obj_eq, lookup_set_objects).
    rewrite set_objects_insert, set_mu_unlock, set_objects_id by done.
    reflexivity.
Qed.

(** The deferred unlock, after a handler that returned. *)
Lemma Call_unlocks {A} t o (a : A) w :
  objects w !! obj t = Some o →
  (do! Unlock_obj (obj t) in ret a) w = Returned a (unlocked t o w).
Proof.
  intros Ho. unfold Unlock_obj.
  erewrite bind_Returned by (apply modify_obj_eq; exact Ho). reflexivity.
Qed.

Lemma On_spec t o method do w :
  points_to t o w →
  On t method do w =
  Returned tt
    (set_objects
       (insert (obj t) (set_calls (insert (expand (dest o) method) do) o)) w).
Proof.
  intros [Ho Hmu]. unfold On, Unlock_obj. do 3 mstep_obj.
  erewrite modify_obj_eq by apply lookup_set_objects.
  rewrite !set_objects_insert. do 3 f_equal.
  destruct o; simpl in *; by subst.
Qed.

End Operations.

(** ** Calls *)

Section Calls.
Context `{Pkg : Package} `{Cls : Closures}.

(** Registering a handler keeps the object live and its mutex free. *)
Lemma On_keeps t o method do w :
  live t w → points_to t o w →
  let o' := set_calls (insert (expand (dest o) method) do) o in
  let w' := set_objects (insert (obj t) o') w in
  live t w' ∧ points_to t o' w'.
Proof.
  intros Hl [Ho Hmu] o' w'. split.
  - eapply live_transfer; [exact Ho|apply lookup_set_objects|done..].
  - split; [apply lookup_set_objects|done].
Qed.

(** What a call on a live object with the handler [h] under the expanded
    name comes to: the outcome of the handler, run with the mutex taken. *)
Lemma Call_with_handler t o m h flags args w :
  live t w → points_to t o w →
  lookup_call o (expand (dest o) m) = Some h →
  match invoke h args (locked t o w) with
  | Returned r w2 =>
      ∀ o2, objects w2 !! obj t = Some o2 →
        Call t m flags args w
        = Returned
            (Some (dbus.with_Err r.2
                     (dbus.with_Body r.1 (call_sent o m args))))
            (unlocked t o2 w2)
  | Panicked p => Call t m flags args w = Panicked (InHandler p)
  | Blocked => Call t m flags args w = Blocked
  end.
Proof.
  intros Hl Hp Hh. rewrite (Call_spec t o m flags args w Hl Hp), Hh.
  destruct (invoke h args (locked t o w)) as [r w2| |]; [|done..].
  intros o2 Ho2. by apply Call_unlocks.
Qed.

(** C1, as amended: after [On(m, h)] on a live object, [Call(m, flags,
    args...)] runs [h(args...)] once, with the mutex of the object taken.
    When the handler returns, [Call] returns, from the world the handler
    left and with the mutex given back, a record whose body and error are
    the values and the error of the handler, unchanged; when the handler
    panics, so does [Call]; when the handler waits, [Call] waits. *)
Theorem Call_returns_handler_result t o m h flags args w :
  live t w → points_to t o w →
  ∃ w1 o1,
    On t m (Some h) w = Returned tt w1
    ∧ points_to t o1 w1
    ∧ match invoke h args (locked t o1 w1) with
      | Returned r w2 =>
          ∀ o2, objects w2 !! obj t = Some o2 →
            ∃ c,
              Call t m flags args w1 = Returned (Some c) (unlocked t o2 w2)
              ∧ dbus.Body c = r.1
              ∧ dbus.Err c = r.2
      | Panicked p => Call t m flags args w1 = Panicked (InHandler p)
      | Blocked => Call t m flags args w1 = Blocked
      end.
Proof.
  intros Hl Hp.
  destruct (On_keeps t o m (Some h) w Hl Hp) as [Hl1 Hp1].
  eexists _, _. split; [by apply On_spec|]. split; [exact Hp1|].
  pose proof (Call_with_handler t _ m h flags args _ Hl1 Hp1) as Hcall.
  simpl in Hcall. unfold lookup_call in Hcall. simpl in Hcall.
  rewrite lookup_insert_eq in Hcall. specialize (Hcall eq_refl).
  destruct (invoke h args _) as [r w2| |]; [|exact Hcall..].
  intros o2 Ho2. eexists. split; [exact (Hcall o2 Ho2)|]. done.
Qed.

(** C2: when the expanded method name has no handler, [Call] on a live
    object returns a call record (it does not panic) whose error is
    [No such method: ] followed by the expanded name. *)
Theorem Call_no_such_method t o m flags args w :
  live t w → points_to t o w →
  lookup_call o (expand (dest o) m) = None →
  ∃ c,
    Call t m flags args w = Returned (Some c) w
    ∧ dbus.Err c = Some ("No such method: " +:+ expand (dest o) m)
    ∧ dbus.Body c = [].
Proof.
  intros Hl Hp Hnone. eexists. split.
  - rewrite (Call_spec t o m flags args w Hl Hp), Hnone. reflexivity.
  - done.
Qed.

(** C9, as amended: [Call] on a live object, when no handler is registered
    under the expanded name or when the registered handler returns, returns
    a non-nil call record whose destination and path are the object's, whose
    method is the expanded name and whose arguments are the given ones; the
    missing handler, or the error of the handler, shows in the error field of
    the record.  A handler that panics makes [Call] panic, and a handler that
    waits makes it wait. *)
Theorem Call_record_fields t o m flags args w :
  live t w → points_to t o w →
  match lookup_call o (expand (dest o) m) with
  | None =>
      ∃ c,
        Call t m flags args w = Returned (Some c) w
        ∧ dbus.Destination c = dest o
        ∧ dbus.Path c = path o
        ∧ dbus.Method c = expand (dest o) m
        ∧ dbus.Args c = args
        ∧ dbus.Err c = Some ("No such method: " +:+ expand (dest o) m)
  | Some h =>
      match invoke h args (locked t o w) with
      | Returned r w2 =>
          ∀ o2, objects w2 !! obj t = Some o2 →
            ∃ c,
              Call t m flags args w = Returned (Some c) (unlocked t o2 w2)
              ∧ dbus.Destination c = dest o
              ∧ dbus.Path c = path o
              ∧ dbus.Method c = expand (dest o) m
              ∧ dbus.Args c = args
              ∧ dbus.Body c = r.1
              ∧ dbus.Err c = r.2
      | Panicked p => Call t m flags args w = Panicked (InHandler p)
      | Blocked => Call t m flags args w = Blocked
      end
  end.
Proof.
  intros Hl Hp.
  destruct (lookup_call o (expand (dest o) m)) as [h|] eqn:Hh.
  - pose proof (Call_with_handler t o m h flags args w Hl Hp Hh) as Hcall.
    destruct (invoke h args _) as [r w2| |]; [|exact Hcall..].
    intros o2 Ho2. eexists. split; [exact (Hcall o2 Ho2)|]. done.
  - eexists. split.
    + rewrite (Call_spec t o m flags args w Hl Hp), Hh. reflexivity.
    + done.
Qed.

End Calls.

Section CallExamples.
#[local] Existing Instance Sample.pkg.
#[local] Existing Instance Sample.cls.

(** The sample world after a handler has been registered for ["Ping"]. *)
Definition with_ping (h : handler) : world :=
  set_objects
    (insert 0%nat
       (set_calls (insert "org.example.Player.Ping" (Some h)) Sample.the_obj))
    (Sample.w0 true false).

(** A handler that panics: the call on the live object does not return a
    record. *)
Lemma Call_panics_with_its_handler :
  live Sample.bound (Sample.w0 true false)
  ∧ On Sample.bound "Ping" (Some Sample.boom) (Sample.w0 true false)
    = Returned tt (with_ping Sample.boom)
  ∧ live Sample.bound (with_ping Sample.boom)
  ∧ Call Sample.bound "Ping" 0 [VInt 1] (with_ping Sample.boom)
    = Panicked (InHandler (Raised "boom")).
Proof. repeat split; vm_compute; reflexivity. Qed.

(** The handler [pinger]: it returns, having emitted a signal, and [Call]
    returns its values from the world it left. *)
Lemma Call_returns_handler_result_witness :
  ∃ w1 w2 c,
    On Sample.bound "Ping" (Some Sample.pinger) (Sample.w0 true false)
    = Returned tt w1
    ∧ Call Sample.bound "Ping" 0 [VInt 1] w1 = Returned (Some c) w2
    ∧ dbus.Body c = [] ∧ dbus.Err c = None
    ∧ length (emitted w2) = 1%nat.
Proof.
  assert (Hl : live Sample.bound (Sample.w0 true false))
    by (vm_compute; reflexivity).
  assert (Hp : points_to Sample.bound Sample.the_obj (Sample.w0 true false))
    by (split; reflexivity).
  destruct (Call_returns_handler_result Sample.bound Sample.the_obj "Ping"
              Sample.pinger 0 [VInt 1] (Sample.w0 true false) Hl Hp)
    as (w1 & o1 & HOn & [Ho1 Hmu1] & Hcall).
  assert (Hw1 : w1 = with_ping Sample.pinger).
  { assert (HOn' : On Sample.bound "Ping" (Some Sample.pinger)
                     (Sample.w0 true false)
                   = Returned tt (with_ping Sample.pinger))
      by (vm_compute; reflexivity).
    rewrite HOn' in HOn. by injection HOn as <-. }
  subst w1.
  assert (Ho : o1 = set_calls (insert "org.example.Player.Ping"
                                 (Some Sample.pinger)) Sample.the_obj).
  { assert (Hlook : objects (with_ping Sample.pinger) !! obj Sample.bound
                    = Some (set_calls (insert "org.example.Player.Ping"
                                         (Some Sample.pinger)) Sample.the_obj))
      by (vm_compute; reflexivity).
    rewrite Hlook in Ho1. by injection Ho1 as <-. }
  subst o1.
  destruct (invoke Sample.pinger [VInt 1] _) as [r w2| |] eqn:Hinv;
    [|vm_compute in Hinv; discriminate Hinv..].
  vm_compute in Hinv. injection Hinv as <- <-.
  destruct (Hcall _ eq_refl) as (c & Hc & Hb & He).
  eexists _, _, c. split; [exact HOn|]. split; [exact Hc|].
  split; [exact Hb|]. split; [exact He|]. reflexivity.
Defined.

Lemma Call_no_such_method_witness :
  ∃ c,
    Call Sample.bound "Ping" 0 [] (Sample.w0 true false)
    = Returned (Some c) (Sample.w0 true false)
    ∧ dbus.Err c = Some "No such method: org.example.Player.Ping"
    ∧ dbus.Body c = [].
Proof.
  assert (Hl : live Sample.bound (Sample.w0 true false))
    by (vm_compute; reflexivity).
  assert (Hp : points_to Sample.bound Sample.the_obj (Sample.w0 true false))
    by (split; reflexivity).
  exact (Call_no_such_method Sample.bound Sample.the_obj "Ping" 0 []
           (Sample.w0 true false) Hl Hp eq_refl).
Defined.

(** A handler that registers a handler on the object it is called on waits
    for the mutex that [Call] holds: the call on the live object does not
    return. *)
Lemma Call_waits_for_its_handler :
  live Sample.bound (with_ping Sample.reenter)
  ∧ lookup_call
      (set_calls (insert "org.example.Player.Ping" (Some Sample.reenter))
         Sample.the_obj) "org.example.Player.Ping"
    = Some Sample.reenter
  ∧ Call Sample.bound "Ping" 0 [] (with_ping Sample.reenter) = Blocked.
Proof. repeat split; vm_compute; reflexivity. Qed.

(** The handler [shout] is registered: the record has the fields of the
    call, and the values and the error of the handler. *)
Lemma Call_record_fields_witness :
  ∃ c,
    Call Sample.bound "Ping" 0 [VInt 5] (with_ping Sample.shout)
    = Returned (Some c) (with_ping Sample.shout)
    ∧ dbus.Destination c = "org.example.Player"
    ∧ dbus.Path c = "/org/example/Player"
    ∧ dbus.Method c = "org.example.Player.Ping"
    ∧ dbus.Args c = [VInt 5]
    ∧ dbus.Body c = [VString "PONG"]
    ∧ dbus.Err c = Some "too loud".
Proof.
  assert (Hl : live Sample.bound (with_ping Sample.shout))
    by (vm_compute; reflexivity).
  assert (Hp : points_to Sample.bound
                 (set_calls (insert "org.example.Player.Ping"
                               (Some Sample.shout)) Sample.the_obj)
                 (with_ping Sample.shout))
    by (split; reflexivity).
  pose proof (Call_record_fields Sample.bound _ "Ping" 0 [VInt 5]
                (with_ping Sample.shout) Hl Hp) as H.
  vm_compute in H.
  destruct (H _ eq_refl) as (c & Hc & Hd & Hpa & Hm & Ha & Hb & He).
  exists c. split; [vm_compute; exact Hc|].
  split; [exact Hd|]. split; [exact Hpa|]. split; [exact Hm|].
  split; [exact Ha|]. split; [exact Hb|exact He].
Defined.

End CallExamples.

(** ** Properties *)

Lemma MakeVariant_eq v w : v ≠ VNil → MakeVariant v w = Returned (VariantOf v) w.
Proof. by destruct v. Qed.

Section Properties.
Context `{Pkg : Package}.

Lemma GetProperty_spec t o p w :
  live t w → points_to t o w →
  GetProperty t p w =
  match props o !! p with
  | Some VNil => Panicked InvalidType
  | Some val => Returned (VariantOf val, None) w
  | None => Returned (VariantZero, errors.New ("No such property: " +:+ p)) w
  end.
Proof.
  intros Hl [Ho Hmu]. unfold GetProperty, Unlock_obj.
  mstep ltac:(exact Hl). do 2 mstep_obj.
  replace (props (set_mu true o) !! p) with (props o !! p) by done.
  destruct (props o !! p) as [val|].
  - assert (val = VNil ∨ val ≠ VNil) as [->|Hval]
      by (destruct val; (by left) || (by right)); [reflexivity|].
    erewrite bind_Returned
      by (erewrite bind_Returned by (by apply MakeVariant_eq); reflexivity).
    erewrite bind_Returned by (apply modify_obj_eq, lookup_set_objects).
    rewrite set_objects_insert, set_mu_unlock, set_objects_id by done.
    by destruct val.
  - erewrite bind_Returned by reflexivity.
    erewrite bind_Returned by (apply modify_obj_eq, lookup_set_objects).
    rewrite set_objects_insert, set_mu_unlock, set_objects_id by done.
    reflexivity.
Qed.

Lemma Emit_spec t o s name args w :
  objects w !! obj t = Some o → services w !! svc o = Some s →
  Emit t name args w =
  Returned tt
    (set_emitted
       (fun l => l ++ [{| sig_name := expand (dest o) name; sig_sender := id s;
                          sig_path := path o; sig_body := args |}]) w).
Proof.
  intros Ho Hs. unfold Emit, bus_emit. mstep_obj.
  mstep ltac:(apply deref_svc_eq; exact Hs). done.
Qed.

Lemma SetProperty_spec t o s prop v signal w :
  live t w → points_to t o w → services w !! svc o = Some s →
  (signal = true → v ≠ VNil) →
  let key := expand (dest o) prop in
  let w1 := set_objects (insert (obj t) (set_props (insert key v) o)) w in
  SetProperty t prop v signal w =
  Returned tt
    (if signal
     then set_emitted (fun l => l ++ [props_changed_signal o s key v]) w1
     else w1).
Proof.
  intros Hl [Ho Hmu] Hs Hv key w1. unfold SetProperty, Unlock_obj.
  mstep ltac:(exact Hl). do 3 mstep_obj.
  assert (set_mu false (set_props (insert key v) (set_mu true o))
          = set_props (insert key v) o) as Hunlock
    by (destruct o; simpl in *; by subst).
  destruct signal.
  - mstep ltac:(erewrite bind_Returned by (apply MakeVariant_eq; by apply Hv);
                eapply Emit_spec; [apply lookup_set_objects|exact Hs]).
    erewrite modify_obj_eq by apply lookup_set_objects.
    simpl. unfold set_emitted, set_objects, props_changed_signal. simpl.
    rewrite !insert_insert_eq. fold key. by rewrite Hunlock.
  - erewrite bind_Returned by reflexivity.
    erewrite modify_obj_eq by apply lookup_set_objects.
    rewrite !set_objects_insert. simpl. fold key. by rewrite Hunlock.
Qed.

(** The nil value has no variant: with the signal asked for, [SetProperty]
    panics where it builds the map of the signal. *)
Lemma SetProperty_nil_signal t o prop w :
  live t w → points_to t o w →
  SetProperty t prop VNil true w = Panicked InvalidType.
Proof.
  intros Hl [Ho Hmu]. unfold SetProperty.
  mstep ltac:(exact Hl). do 3 mstep_obj. reflexivity.
Qed.

(** Storing a property keeps the object live and its mutex free. *)
Lemma SetProperty_keeps t o key v w :
  live t w → points_to t o w →
  let o' := set_props (insert key v) o in
  let w' := set_objects (insert (obj t) o') w in
  live t w' ∧ points_to t o' w'.
Proof.
  intros Hl [Ho Hmu] o' w'. split.
  - eapply live_transfer; [exact Ho|apply lookup_set_objects|done..].
  - split; [apply lookup_set_objects|done].
Qed.



End Properties.

Section PropertyExamples.
#[local] Existing Instance Sample.pkg.





End PropertyExamples.

(** ** Match rules *)

Lemma supported_iff k :
  supported k = true ↔
  k = "path" ∨ k = "path_namespace" ∨ k = "sender" ∨ String.prefix "arg" k = true.
Proof.
  unfold supported. rewrite !orb_true_iff, !bool_decide_eq_true. tauto.
Qed.

Lemma first_unsupported_None ks :
  first_unsupported ks = None ↔ ∀ k, k ∈ ks → supported k = true.
Proof.
  induction ks as [|k ks IH]; simpl.
  - split; [|done]. intros _ k Hk. by apply elem_of_nil in Hk.
  - destruct (supported k) eqn:Hk.
    + rewrite IH. split.
      * intros H k' [->|Hin]%elem_of_cons; auto.
      * intros H k' Hin. apply H. by right.
    + split; [discriminate|]. intros H.
      rewrite (H k) in Hk by left. discriminate.
Qed.

Lemma first_unsupported_Some ks k :
  first_unsupported ks = Some k → k ∈ ks ∧ supported k = false.
Proof.
  induction ks as [|k' ks IH]; simpl; [discriminate|].
  destruct (supported k') eqn:Hk'.
  - intros [Hin Hk]%IH. split; [by right|done].
  - intros [= ->]. split; [by left|done].
Qed.

Section Matches.
Context `{Pkg : Package} `{Rng : MapRange}.

(** [range] visits exactly the keys of the map. *)
Lemma elem_of_range_keys (m : rule) k : k ∈ range_keys m ↔ is_Some (m !! k).
Proof.
  rewrite (range_keys_perm m), list_elem_of_fmap. split.
  - intros [[k' v] [-> Hin%elem_of_map_to_list]]. by exists v.
  - intros [v Hv]. exists (k, v). split; [done|]. by apply elem_of_map_to_list.
Qed.

(** Changing the rules or the mutex of a connection keeps the objects live. *)
Lemma live_set_conns t c cn cn' w :
  conns w !! c = Some cn → closed cn' = closed cn →
  live t w → live t (set_conns (insert c cn') w).
Proof.
  intros Hc Hcl. rewrite !live_inv.
  intros (o & s & Ho & Hs & Hr & Hcn). exists o, s. repeat split; try done.
  intros c0 Hc0. destruct (Hcn c0 Hc0) as (cn0 & Hcn0 & Hcl0). simpl.
  destruct (decide (c = c0)) as [->|Hne].
  - exists cn'. rewrite lookup_insert_eq. split; [done|]. congruence.
  - exists cn0. by rewrite lookup_insert_ne.
Qed.

Lemma AddMatchSignal_spec t c cn iface member options w :
  live t w → bound_to t c cn w →
  let name := iface +:+ "." +:+ member in
  let optMap := dbusMatchOptionMap options in
  AddMatchSignal t iface member options w =
  match first_unsupported (range_keys optMap) with
  | Some k =>
      Returned
        (matchCallResult "AddMatch" (Some ("Unsupported match type: " +:+ k))) w
  | None =>
      Returned (matchCallResult "AddMatch" None)
        (set_conns
           (insert c (set_matches
                        (insert name (lookup_matches cn name ++ [optMap])) cn))
           w)
  end.
Proof.
  intros Hl (Hc & Hcn & Hmu) name optMap. unfold AddMatchSignal, Unlock_conn.
  mstep ltac:(exact Hl). fold optMap.
  destruct (first_unsupported (range_keys optMap)); [done|].
  rewrite Hc. do 3 mstep_conn.
  erewrite bind_Returned
    by (apply modify_conn_eq, lookup_set_conns).
  rewrite !set_conns_insert. unfold ret. do 3 f_equal.
  destruct cn; simpl in *; by subst.
Qed.

Lemma RemoveMatchSignal_spec t c cn iface member options w :
  live t w → bound_to t c cn w →
  let name := iface +:+ "." +:+ member in
  let optMap := dbusMatchOptionMap options in
  let ms := lookup_matches cn name in
  RemoveMatchSignal t iface member options w =
  match list_find (fun m => m = optMap) ms with
  | Some (i, _) =>
      Returned (matchCallResult "RemoveMatch" None)
        (set_conns
           (insert c (set_matches (insert name (take i ms ++ drop (S i) ms)) cn))
           w)
  | None =>
      Returned (matchCallResult "RemoveMatch" (Some "Match not found")) w
  end.
Proof.
  intros Hl (Hc & Hcn & Hmu) name optMap ms. unfold RemoveMatchSignal, Unlock_conn.
  mstep ltac:(exact Hl). rewrite Hc. do 2 mstep_conn.
  change (lookup_matches (set_conn_mu true cn) (iface +:+ "." +:+ member)) with ms.
  fold optMap. destruct (list_find (fun m => m = optMap) ms) as [[i m]|].
  - mstep_conn.
    erewrite bind_Returned by (apply modify_conn_eq, lookup_set_conns).
    rewrite !set_conns_insert. unfold ret. do 3 f_equal.
    destruct cn; simpl in *; by subst.
  - erewrite bind_Returned by (apply modify_conn_eq, lookup_set_conns).
    rewrite set_conns_insert, set_conn_mu_unlock, set_conns_id by done.
    done.
Qed.

End Matches.

Section MatchClaims.
Context `{Pkg : Package} `{Rng : MapRange}.

Lemma matchCallResult_Some method err :
  ∃ r, matchCallResult method err = Some r
       ∧ dbus.Err r = err ∧ dbus.Method r = expand bus method
       ∧ dbus.Destination r = bus ∧ dbus.Path r = busPath.
Proof. by eexists. Qed.

(** C6: on a live object bound to a connection, [AddMatchSignal] succeeds
    when every key of the normalised options is [path], [path_namespace],
    [sender] or starts with [arg], and then appends the normalised options to
    the connection's rules for [iface.member], leaving the other names alone;
    when some key is not of that kind it returns the failure
    [Unsupported match type: ] followed by such a key, and the world, the
    match table in it, stays as it was. *)
Theorem AddMatchSignal_checks_keys t c cn iface member options w :
  live t w → bound_to t c cn w →
  let name := iface +:+ "." +:+ member in
  let optMap := dbusMatchOptionMap options in
  ((∀ k, is_Some (optMap !! k) →
      k = "path" ∨ k = "path_namespace" ∨ k = "sender"
      ∨ String.prefix "arg" k = true) →
   ∃ r w1 cn1,
     AddMatchSignal t iface member options w = Returned (Some r) w1
     ∧ dbus.Err r = None
     ∧ conns w1 !! c = Some cn1
     ∧ lookup_matches cn1 name = lookup_matches cn name ++ [optMap]
     ∧ ∀ name', name' ≠ name → matches cn1 !! name' = matches cn !! name')
  ∧ ((∃ k, is_Some (optMap !! k)
           ∧ ¬ (k = "path" ∨ k = "path_namespace" ∨ k = "sender"
                ∨ String.prefix "arg" k = true)) →
     ∃ r k,
       AddMatchSignal t iface member options w = Returned (Some r) w
       ∧ is_Some (optMap !! k)
       ∧ ¬ (k = "path" ∨ k = "path_namespace" ∨ k = "sender"
            ∨ String.prefix "arg" k = true)
       ∧ dbus.Err r = Some ("Unsupported match type: " +:+ k)).
Proof.
  intros Hl Hb name optMap.
  pose proof (AddMatchSignal_spec t c cn iface member options w Hl Hb) as Hspec.
  cbv zeta in Hspec. fold name optMap in Hspec. split.
  - intros Hall.
    assert (first_unsupported (range_keys optMap) = None) as Hnone.
    { apply first_unsupported_None. intros k Hk.
      apply supported_iff, Hall, elem_of_range_keys, Hk. }
    rewrite Hnone in Hspec.
    destruct (matchCallResult_Some "AddMatch" None) as (r & Hr & Herr & _).
    rewrite Hr in Hspec. eexists r, _, _. split; [exact Hspec|].
    split; [exact Herr|]. split; [apply lookup_set_conns|]. split.
    + unfold lookup_matches at 1. simpl. by rewrite lookup_insert_eq.
    + intros name' Hne. simpl. by rewrite lookup_insert_ne.
  - intros (k0 & Hk0 & Hbad0).
    destruct (first_unsupported (range_keys optMap)) as [k|] eqn:Hfirst.
    + apply first_unsupported_Some in Hfirst as [Hin Hk].
      destruct (matchCallResult_Some "AddMatch"
                  (Some ("Unsupported match type: " +:+ k)))
        as (r & Hr & Herr & _).
      rewrite Hr in Hspec. exists r, k. split; [exact Hspec|].
      split; [by apply elem_of_range_keys|]. split; [|exact Herr].
      rewrite <- supported_iff, Hk. discriminate.
    + exfalso. apply Hbad0, supported_iff.
      eapply first_unsupported_None; [exact Hfirst|].
      by apply elem_of_range_keys.
Qed.

(** C7, as amended: on a live object bound to a connection, for options
    whose keys are all supported, [AddMatchSignal] succeeds and
    [RemoveMatchSignal] with the same options then succeeds
    and takes out of the rules for [iface.member] the first entry equal to
    the normalised options; when no other entry was equal to them, the rules
    are back to what they were and a second [RemoveMatchSignal] with the same
    options fails with [Match not found]. *)
Theorem AddMatchSignal_then_RemoveMatchSignal t c cn iface member options w :
  live t w → bound_to t c cn w →
  let name := iface +:+ "." +:+ member in
  let optMap := dbusMatchOptionMap options in
  let ms := lookup_matches cn name in
  (∀ k, is_Some (optMap !! k) → supported k = true) →
  ∃ r1 w1 r2 w2 cn2 i,
    AddMatchSignal t iface member options w = Returned (Some r1) w1
    ∧ dbus.Err r1 = None
    ∧ RemoveMatchSignal t iface member options w1 = Returned (Some r2) w2
    ∧ dbus.Err r2 = None
    ∧ conns w2 !! c = Some cn2
    ∧ (ms ++ [optMap]) !! i = Some optMap
    ∧ (∀ j m, (ms ++ [optMap]) !! j = Some m → (j < i)%nat → m ≠ optMap)
    ∧ lookup_matches cn2 name
      = take i (ms ++ [optMap]) ++ drop (S i) (ms ++ [optMap])
    ∧ (optMap ∉ ms →
       lookup_matches cn2 name = ms
       ∧ ∃ r3,
           RemoveMatchSignal t iface member options w2 = Returned (Some r3) w2
           ∧ dbus.Err r3 = Some "Match not found").
Proof.
  intros Hl Hb name optMap ms Hall.
  pose proof (AddMatchSignal_spec t c cn iface member options w Hl Hb) as Hadd.
  cbv zeta in Hadd. fold name optMap ms in Hadd.
  assert (first_unsupported (range_keys optMap) = None) as Hnone.
  { apply first_unsupported_None. intros k Hk.
    apply Hall, elem_of_range_keys, Hk. }
  rewrite Hnone in Hadd.
  set (cn1 := set_matches (insert name (ms ++ [optMap])) cn) in *.
  set (w1 := set_conns (insert c cn1) w) in *.
  destruct Hb as (Hc & Hcn & Hmu).
  assert (live t w1) as Hl1 by (by eapply live_set_conns).
  assert (bound_to t c cn1 w1) as Hb1
    by (split; [done|split; [apply lookup_set_conns|done]]).
  assert (lookup_matches cn1 name = ms ++ [optMap]) as Hms1
    by (unfold lookup_matches; simpl; by rewrite lookup_insert_eq).
  pose proof (RemoveMatchSignal_spec t c cn1 iface member options w1 Hl1 Hb1)
    as Hrem.
  cbv zeta in Hrem. fold name optMap in Hrem. rewrite Hms1 in Hrem.
  destruct (list_find (fun m => m = optMap) (ms ++ [optMap])) as [[i m]|] eqn:Hfind;
    last first.
  { apply list_find_None in Hfind. rewrite Forall_app, Forall_singleton in Hfind.
    by destruct Hfind. }
  apply list_find_Some in Hfind as (Hi & -> & Hfirst).
  set (cn2 := set_matches
                (insert name (take i (ms ++ [optMap]) ++ drop (S i) (ms ++ [optMap])))
                cn1) in *.
  set (w2 := set_conns (insert c cn2) w1) in *.
  assert (lookup_matches cn2 name
          = take i (ms ++ [optMap]) ++ drop (S i) (ms ++ [optMap])) as Hms2
    by (unfold lookup_matches; simpl; by rewrite lookup_insert_eq).
  destruct (matchCallResult_Some "AddMatch" None) as (r1 & Hr1 & Herr1 & _).
  destruct (matchCallResult_Some "RemoveMatch" None) as (r2 & Hr2 & Herr2 & _).
  rewrite Hr1 in Hadd. rewrite Hr2 in Hrem.
  exists r1, w1, r2, w2, cn2, i.
  split; [exact Hadd|]. split; [exact Herr1|]. split; [exact Hrem|].
  split; [exact Herr2|]. split; [apply lookup_set_conns|].
  split; [exact Hi|]. split; [exact Hfirst|]. split; [exact Hms2|].
  intros Hnotin.
  assert (i = length ms) as ->.
  { destruct (decide (i < length ms)%nat) as [Hlt|Hge].
    - exfalso. apply Hnotin. rewrite lookup_app_l in Hi by done.
      by eapply list_elem_of_lookup_2.
    - apply lookup_lt_Some in Hi. rewrite length_app in Hi. simpl in Hi. lia. }
  assert (lookup_matches cn2 name = ms) as Hback.
  { rewrite Hms2, take_app_length.
    rewrite drop_ge by (rewrite length_app; simpl; lia). apply app_nil_r. }
  split; [exact Hback|].
  assert (live t w2) as Hl2
    by (eapply live_set_conns; [apply lookup_set_conns|done|done]).
  assert (bound_to t c cn2 w2) as Hb2
    by (split; [done|split; [apply lookup_set_conns|done]]).
  pose proof (RemoveMatchSignal_spec t c cn2 iface member options w2 Hl2 Hb2)
    as Hrem2.
  cbv zeta in Hrem2. fold name optMap in Hrem2. rewrite Hback in Hrem2.
  assert (list_find (fun m => m = optMap) ms = None) as Hfind2.
  { apply list_find_None, Forall_forall. intros m Hm ->. by apply Hnotin. }
  rewrite Hfind2 in Hrem2.
  destruct (matchCallResult_Some "RemoveMatch" (Some "Match not found"))
    as (r3 & Hr3 & Herr3 & _).
  rewrite Hr3 in Hrem2. by exists r3.
Qed.

End MatchClaims.

Section MatchExamples.
#[local] Existing Instance Sample.pkg.
#[local] Existing Instance Sample.rng.

Lemma good_options_supported k :
  is_Some (dbusMatchOptionMap Sample.good_options !! k) → supported k = true.
Proof.
  intros Hk%elem_of_range_keys.
  vm_compute in Hk.
  inversion_clear Hk as [|? ? ? Hk']; [reflexivity|].
  inversion_clear Hk' as [|? ? ? Hk]; [reflexivity|].
  inversion Hk.
Qed.

Lemma bad_options_unsupported :
  is_Some (dbusMatchOptionMap Sample.bad_options !! "interface").
Proof. vm_compute. eexists. reflexivity. Qed.

Lemma AddMatchSignal_checks_keys_witness :
  (∃ r w1 cn1,
     AddMatchSignal Sample.bound "org.example.Player" "Seeked" Sample.good_options
       (Sample.w0 true false) = Returned (Some r) w1
     ∧ dbus.Err r = None
     ∧ conns w1 !! 0%nat = Some cn1
     ∧ lookup_matches cn1 "org.example.Player.Seeked"
       = [dbusMatchOptionMap Sample.good_options])
  ∧ (∃ r k,
       AddMatchSignal Sample.bound "org.example.Player" "Seeked" Sample.bad_options
         (Sample.w0 true false) = Returned (Some r) (Sample.w0 true false)
       ∧ supported k = false
       ∧ dbus.Err r = Some ("Unsupported match type: " +:+ k)).
Proof.
  assert (Hl : live Sample.bound (Sample.w0 true false))
    by (vm_compute; reflexivity).
  assert (Hb : bound_to Sample.bound 0%nat (Sample.the_conn false)
                 (Sample.w0 true false))
    by (split; [|split]; reflexivity).
  split.
  - destruct (AddMatchSignal_checks_keys Sample.bound 0%nat
                (Sample.the_conn false) "org.example.Player" "Seeked"
                Sample.good_options (Sample.w0 true false) Hl Hb) as [Hok _].
    destruct Hok as (r & w1 & cn1 & Hadd & Herr & Hcn & Hms & _).
    { intros k Hk. apply supported_iff, good_options_supported, Hk. }
    exists r, w1, cn1.
    split; [exact Hadd|]. split; [exact Herr|]. split; [exact Hcn|exact Hms].
  - destruct (AddMatchSignal_checks_keys Sample.bound 0%nat
                (Sample.the_conn false) "org.example.Player" "Seeked"
                Sample.bad_options (Sample.w0 true false) Hl Hb) as [_ Hbad].
    destruct Hbad as (r & k & Hadd & _ & Hk & Herr).
    { exists "interface". split; [exact bad_options_unsupported|].
      rewrite <- supported_iff. vm_compute. discriminate. }
    exists r, k. split; [exact Hadd|]. split; [|exact Herr].
    rewrite <- supported_iff in Hk. apply not_true_is_false, Hk.
Defined.

(** Options with a key that is refused: the subscription fails, and the
    removal that follows finds nothing. *)
Lemma AddMatchSignal_refused_then_RemoveMatchSignal :
  live Sample.bound (Sample.w0 true false)
  ∧ AddMatchSignal Sample.bound "org.example.Player" "Seeked" Sample.bad_options
      (Sample.w0 true false)
    = Returned
        (matchCallResult "AddMatch" (Some "Unsupported match type: interface"))
        (Sample.w0 true false)
  ∧ RemoveMatchSignal Sample.bound "org.example.Player" "Seeked"
      Sample.bad_options (Sample.w0 true false)
    = Returned (matchCallResult "RemoveMatch" (Some "Match not found"))
        (Sample.w0 true false).
Proof. repeat split; vm_compute; reflexivity. Qed.

Lemma AddMatchSignal_then_RemoveMatchSignal_witness :
  ∃ r1 w1 r2 w2 r3,
    AddMatchSignal Sample.bound "org.example.Player" "Seeked" Sample.good_options
      (Sample.w0 true false) = Returned (Some r1) w1
    ∧ dbus.Err r1 = None
    ∧ RemoveMatchSignal Sample.bound "org.example.Player" "Seeked" Sample.good_options
        w1 = Returned (Some r2) w2
    ∧ dbus.Err r2 = None
    ∧ RemoveMatchSignal Sample.bound "org.example.Player" "Seeked" Sample.good_options
        w2 = Returned (Some r3) w2
    ∧ dbus.Err r3 = Some "Match not found".
Proof.
  assert (Hl : live Sample.bound (Sample.w0 true false))
    by (vm_compute; reflexivity).
  assert (Hb : bound_to Sample.bound 0%nat (Sample.the_conn false)
                 (Sample.w0 true false))
    by (split; [|split]; reflexivity).
  destruct (AddMatchSignal_then_RemoveMatchSignal Sample.bound 0%nat
              (Sample.the_conn false) "org.example.Player" "Seeked"
              Sample.good_options (Sample.w0 true false) Hl Hb good_options_supported)
    as (r1 & w1 & r2 & w2 & cn2 & i & H1 & H2 & H3 & H4 & _ & _ & _ & _ & Hlast).
  destruct Hlast as [_ (r3 & H5 & H6)]; [apply not_elem_of_nil|].
  exists r1, w1, r2, w2, r3.
  split; [exact H1|]. split; [exact H2|]. split; [exact H3|].
  split; [exact H4|]. split; [exact H5|exact H6].
Defined.

End MatchExamples.

(** ** The liveness check and the connection *)

Create HintDb ncc discriminated.

Lemma ncc_ret {A} (a : A) : never_ConnectionClosed (ret a).
Proof. intros w. discriminate. Qed.

Lemma ncc_blocked {A} : never_ConnectionClosed (fun _ => @Blocked A).
Proof. intros w. discriminate. Qed.

Lemma ncc_nil {A} : never_ConnectionClosed (@raise A NilDereference).
Proof. intros w. discriminate. Qed.

Lemma ncc_unregistered {A} : never_ConnectionClosed (@raise A ServiceUnregistered).
Proof. intros w. discriminate. Qed.

Lemma ncc_MakeVariant v : never_ConnectionClosed (MakeVariant v).
Proof. intros w. destruct v; discriminate. Qed.

(** A panic that comes out of a handler is the handler's. *)
Lemma ncc_run_handler `{Closures} h args :
  never_ConnectionClosed (run_handler h args).
Proof.
  intros w. unfold run_handler. destruct (invoke h args w); discriminate.
Qed.

Lemma ncc_bind {A B} (m : M A) (k : A → M B) :
  never_ConnectionClosed m → (∀ a, never_ConnectionClosed (k a)) →
  never_ConnectionClosed (bind m k).
Proof.
  intros Hm Hk w. unfold bind. specialize (Hm w).
  destruct (m w) as [a w'| p |]; [apply Hk| |discriminate].
  intros [= ->]. by apply Hm.
Qed.

Lemma ncc_if {A} (b : bool) (m1 m2 : M A) :
  never_ConnectionClosed m1 → never_ConnectionClosed m2 →
  never_ConnectionClosed (if b then m1 else m2).
Proof. by destruct b. Qed.

Lemma ncc_deref_obj a : never_ConnectionClosed (deref_obj a).
Proof. intros w. unfold deref_obj. by destruct (objects w !! a). Qed.

Lemma ncc_deref_conn a : never_ConnectionClosed (deref_conn a).
Proof. intros w. unfold deref_conn. by destruct (conns w !! a). Qed.

Lemma ncc_deref_svc a : never_ConnectionClosed (deref_svc a).
Proof. intros w. unfold deref_svc. by destruct (services w !! a). Qed.

#[export] Hint Resolve ncc_ret ncc_blocked ncc_nil ncc_unregistered ncc_bind
  ncc_if ncc_deref_obj ncc_deref_conn ncc_deref_svc ncc_MakeVariant
  ncc_run_handler : ncc.

Lemma ncc_modify_obj a f : never_ConnectionClosed (modify_obj a f).
Proof.
  unfold modify_obj. apply ncc_bind; [auto with ncc|].
  intros o w. discriminate.
Qed.

Lemma ncc_modify_conn a f : never_ConnectionClosed (modify_conn a f).
Proof.
  unfold modify_conn. apply ncc_bind; [auto with ncc|].
  intros c w. discriminate.
Qed.

#[export] Hint Resolve ncc_modify_obj ncc_modify_conn : ncc.

Lemma ncc_Lock_obj a : never_ConnectionClosed (Lock_obj a).
Proof. unfold Lock_obj. auto with ncc. Qed.

Lemma ncc_Unlock_obj a : never_ConnectionClosed (Unlock_obj a).
Proof. unfold Unlock_obj. auto with ncc. Qed.

Lemma ncc_Lock_conn a : never_ConnectionClosed (Lock_conn a).
Proof. unfold Lock_conn. auto with ncc. Qed.

Lemma ncc_Unlock_conn a : never_ConnectionClosed (Unlock_conn a).
Proof. unfold Unlock_conn. auto with ncc. Qed.

#[export] Hint Resolve ncc_Lock_obj ncc_Unlock_obj ncc_Lock_conn ncc_Unlock_conn
  : ncc.

Section Check.
Context `{Pkg : Package} `{Rng : MapRange}.

Lemma ncc_checkRegistered s : never_ConnectionClosed (checkRegistered s).
Proof.
  unfold checkRegistered. apply ncc_bind; [auto with ncc|].
  intros sv. auto with ncc.
Qed.

Lemma check_unbound t o w :
  conn t = None → objects w !! obj t = Some o →
  check t w = checkRegistered (svc o) w.
Proof.
  intros Hc Ho. unfold check. mstep_obj. rewrite Hc.
  unfold bind, ret. by destruct (checkRegistered (svc o) w) as [[] ?| |].
Qed.

Lemma check_bound t c o w :
  conn t = Some c → objects w !! obj t = Some o →
  check t w = (do! checkRegistered (svc o) in checkOpen c) w.
Proof. intros Hc Ho. unfold check. mstep_obj. by rewrite Hc. Qed.

Lemma ncc_check t : conn t = None → never_ConnectionClosed (check t).
Proof.
  intros Hc. unfold check. rewrite Hc.
  apply ncc_bind; [auto with ncc|]. intros o.
  apply ncc_bind; [apply ncc_checkRegistered|auto with ncc].
Qed.

Lemma ncc_Emit t name args : never_ConnectionClosed (Emit t name args).
Proof.
  unfold Emit. apply ncc_bind; [auto with ncc|]. intros o.
  apply ncc_bind; [auto with ncc|]. intros s w. discriminate.
Qed.

(** The connection table is not read by the check of an unbound object. *)
Lemma check_unbound_set_conns t f w :
  conn t = None →
  check t (set_conns f w) =
  match check t w with
  | Returned a _ => Returned a (set_conns f w)
  | Panicked p => Panicked p
  | Blocked => Blocked
  end.
Proof.
  intros Hc. unfold check, checkRegistered. unfold_monad. rewrite Hc. simpl.
  destruct (objects w !! obj t) as [o|]; simpl; [|done].
  destruct (services w !! svc o) as [s|]; simpl; [|done].
  by destruct (registered s).
Qed.

End Check.

(** Decompose an operation into its primitives. *)
Ltac ncc_steps :=
  repeat first
    [ progress cbv zeta
    | apply ncc_bind
    | apply ncc_if
    | apply ncc_ret
    | solve [auto with ncc]
    | intro ].

Section Unbound.
Context `{Pkg : Package} `{Rng : MapRange} `{Cls : Closures}.
Variable t : TestBusObject.
Hypothesis Hunbound : conn t = None.

Lemma ncc_Call method flags args :
  never_ConnectionClosed (Call t method flags args).
Proof.
  unfold Call. apply ncc_bind; [by apply ncc_check|].
  intros _. apply ncc_bind; [auto with ncc|]. intros o. cbv zeta.
  apply ncc_bind; [auto with ncc|]. intros _.
  apply ncc_bind; [auto with ncc|]. intros o'.
  apply ncc_bind; [|ncc_steps].
  destruct (lookup_call o' _); ncc_steps.
Qed.

Lemma ncc_GetProperty p : never_ConnectionClosed (GetProperty t p).
Proof.
  unfold GetProperty. apply ncc_bind; [by apply ncc_check|].
  intros _. apply ncc_bind; [auto with ncc|]. intros _.
  apply ncc_bind; [auto with ncc|]. intros o.
  apply ncc_bind; [|ncc_steps].
  destruct (props o !! p); ncc_steps.
Qed.

Lemma ncc_SetProperty prop v signal :
  never_ConnectionClosed (SetProperty t prop v signal).
Proof.
  unfold SetProperty. apply ncc_bind; [by apply ncc_check|].
  intros _. apply ncc_bind; [auto with ncc|]. intros _.
  apply ncc_bind; [auto with ncc|]. intros o. cbv zeta.
  apply ncc_bind; [auto with ncc|]. intros _.
  apply ncc_bind; [|auto with ncc].
  destruct signal; [|apply ncc_ret].
  apply ncc_bind; [apply ncc_MakeVariant|]. intros var. apply ncc_Emit.
Qed.

Lemma ncc_Destination : never_ConnectionClosed (Destination t).
Proof.
  unfold Destination. apply ncc_bind; [by apply ncc_check|]. ncc_steps.
Qed.

Lemma ncc_Path : never_ConnectionClosed (Path t).
Proof.
  unfold Path. apply ncc_bind; [by apply ncc_check|]. ncc_steps.
Qed.

Lemma ncc_On method do : never_ConnectionClosed (On t method do).
Proof. unfold On. ncc_steps. Qed.

Lemma ncc_Go method flags ch args :
  never_ConnectionClosed (Go t method flags ch args).
Proof. intros w. discriminate. Qed.

Lemma ncc_AddMatchSignal iface member options :
  never_ConnectionClosed (AddMatchSignal t iface member options).
Proof.
  unfold AddMatchSignal. cbv zeta. apply ncc_bind; [by apply ncc_check|].
  intros _. destruct (first_unsupported _); [apply ncc_ret|].
  rewrite Hunbound. apply ncc_nil.
Qed.

Lemma ncc_RemoveMatchSignal iface member options :
  never_ConnectionClosed (RemoveMatchSignal t iface member options).
Proof.
  unfold RemoveMatchSignal. cbv zeta. apply ncc_bind; [by apply ncc_check|].
  intros _. rewrite Hunbound. apply ncc_nil.
Qed.

End Unbound.

Section CheckClaims.
Context `{Pkg : Package} `{Rng : MapRange} `{Cls : Closures}.


End CheckClaims.

(** ** Operations on a dead object *)

Section Dead.
Context `{Pkg : Package} `{Rng : MapRange} `{Cls : Closures}.

(** The check fails when the service is unregistered and, for a bound
    object, when the connection is closed. *)
Lemma check_dead t o s w :
  objects w !! obj t = Some o → services w !! svc o = Some s →
  registered s = false
  ∨ (∃ c cn, conn t = Some c ∧ conns w !! c = Some cn ∧ closed cn = true) →
  ∃ p, check t w = Panicked p
       ∧ (p = ServiceUnregistered ∨ p = ConnectionClosed).
Proof.
  intros Ho Hs Hdead. unfold check, checkRegistered, checkOpen.
  mstep_obj. unfold bind at 1. unfold bind at 1. rewrite (deref_svc_eq _ _ _ Hs).
  destruct (registered s) eqn:Hr.
  - destruct Hdead as [?|(c & cn & Hc & Hcn & Hcl)]; [done|].
    rewrite Hc. unfold ret, bind. rewrite (deref_conn_eq _ _ _ Hcn), Hcl.
    exists ConnectionClosed. split; [done|by right].
  - exists ServiceUnregistered. split; [done|by left].
Qed.

(** C8, as amended: on an object whose owning service has been unregistered
    or, for an object bound to a connection, whose connection has been
    closed, the operations that start with the liveness check -- [Call],
    [CallWithContext], [GetProperty], [SetProperty], [Destination], [Path],
    [AddMatchSignal] and [RemoveMatchSignal] -- panic instead of returning.
    [On] makes no check and returns, and [Go] and [GoWithContext] return nil
    at once: it is the goroutine they start that panics, when it comes out of
    its sleep and calls. *)
Theorem dead_object_operations t o s w :
  objects w !! obj t = Some o → services w !! svc o = Some s →
  registered s = false
  ∨ (∃ c cn, conn t = Some c ∧ conns w !! c = Some cn ∧ closed cn = true) →
  ∃ p,
    (p = ServiceUnregistered ∨ p = ConnectionClosed)
    ∧ (∀ m fl a, Call t m fl a w = Panicked p)
    ∧ (∀ (Ctx : Type) (ctx : Ctx) m fl a,
         CallWithContext ctx t m fl a w = Panicked p)
    ∧ (∀ q, GetProperty t q w = Panicked p)
    ∧ (∀ q v sg, SetProperty t q v sg w = Panicked p)
    ∧ Destination t w = Panicked p
    ∧ Path t w = Panicked p
    ∧ (∀ i m os, AddMatchSignal t i m os w = Panicked p)
    ∧ (∀ i m os, RemoveMatchSignal t i m os w = Panicked p)
    ∧ (mu o = false → ∀ m h, ∃ w', On t m h w = Returned tt w')
    ∧ (∀ m fl ch a, ∃ w', Go t m fl ch a w = Returned None w')
    ∧ (∀ (Ctx : Type) (ctx : Ctx) m fl ch a,
         ∃ w', GoWithContext ctx t m fl ch a w = Returned None w')
    ∧ (∀ m fl ch a wake,
         wake ≤ now w →
         resume {| g_pc := AtSend wake; g_t := t; g_method := m;
                   g_flags := fl; g_ch := ch; g_args := a |} w
         = Crashed p).
Proof.
  intros Ho Hs Hdead.
  destruct (check_dead t o s w Ho Hs Hdead) as (p & Hcheck & Hp).
  assert (∀ m fl a, Call t m fl a w = Panicked p) as HCall
    by (intros; unfold Call; by apply bind_Panicked).
  exists p. split; [exact Hp|]. split; [exact HCall|].
  split; [intros; apply HCall|].
  split; [intros; unfold GetProperty; by apply bind_Panicked|].
  split; [intros; unfold SetProperty; by apply bind_Panicked|].
  split; [unfold Destination; by apply bind_Panicked|].
  split; [unfold Path; by apply bind_Panicked|].
  split; [intros; unfold AddMatchSignal; cbv zeta; by apply bind_Panicked|].
  split; [intros; unfold RemoveMatchSignal; cbv zeta; by apply bind_Panicked|].
  split; [intros Hmu m h; eexists; by apply On_spec|].
  split; [intros; by eexists|]. split; [intros; by eexists|].
  intros m fl ch a wake Hwake. unfold resume. simpl.
  destruct (now w <? wake) eqn:Hlt; [apply Z.ltb_lt in Hlt; lia|].
  by rewrite HCall.
Qed.

End Dead.

Section CheckExamples.
#[local] Existing Instance Sample.pkg.
#[local] Existing Instance Sample.rng.
#[local] Existing Instance Sample.cls.

(** The service of the sample object is unregistered: the check panics, and
    [On] returns all the same. *)
Lemma On_returns_on_unregistered_service :
  registered (Sample.the_svc false) = false
  ∧ check Sample.bound (Sample.w0 false false) = Panicked ServiceUnregistered
  ∧ On Sample.bound "Ping" (Some Sample.echo) (Sample.w0 false false)
    = Returned tt
        (set_objects
           (insert 0%nat
              (set_calls (insert "org.example.Player.Ping" (Some Sample.echo))
                 Sample.the_obj))
           (Sample.w0 false false)).
Proof.
  split; [reflexivity|]. split; [vm_compute; reflexivity|].
  exact (On_spec Sample.bound Sample.the_obj "Ping" (Some Sample.echo)
           (Sample.w0 false false) (conj eq_refl eq_refl)).
Qed.

Lemma dead_object_operations_witness :
  ∃ p,
    (p = ServiceUnregistered ∨ p = ConnectionClosed)
    ∧ (∀ m fl a, Call Sample.bound m fl a (Sample.w0 true true) = Panicked p)
    ∧ (∀ q, GetProperty Sample.bound q (Sample.w0 true true) = Panicked p)
    ∧ (∀ m h, ∃ w', On Sample.bound m h (Sample.w0 true true) = Returned tt w').
Proof.
  destruct (dead_object_operations Sample.bound Sample.the_obj
              (Sample.the_svc true) (Sample.w0 true true)
              eq_refl eq_refl)
    as (p & Hp & HCall & _ & HGet & _ & _ & _ & _ & _ & HOn & _).
  - right. exists 0%nat, (Sample.the_conn true).
    split; [|split]; reflexivity.
  - exists p. split; [exact Hp|]. split; [exact HCall|].
    split; [exact HGet|]. exact (HOn eq_refl).
Defined.


End CheckExamples.

(** ** Asynchronous calls *)

Section Async.
Context `{Pkg : Package} `{Cls : Closures}.

(** C3: [Go] returns nil at once, whatever the state of the object and of
    the channel, and only adds its goroutine to the pool.  The goroutine
    first goes to sleep, and is not runnable before its 505 milliseconds are
    over.  What it then delivers on the channel, at once or after it has
    waited for the channel, is the record that [Call] with the same method,
    flags and arguments returned in the world where the goroutine ran it, and
    it is delivered, by a send on the channel of [Go], no earlier than 505
    milliseconds after [Go] was called.  Once the delay is over, it delivers
    whenever that [Call] returns and the channel takes the record. *)
Theorem Go_delivers_Call_after_delay t method flags ch args w :
  Go t method flags ch args w
  = Returned None
      (set_goroutines (fun gs => gs ++ [spawned t method flags ch args]) w)
  ∧ ∀ w1, now w ≤ now w1 →
      ∃ g1,
        resume (spawned t method flags ch args) w1 = Asleep g1
        ∧ (∀ w2, now w2 < now w1 + 505 * time.Millisecond →
                 resume g1 w2 = NotRunnable)
        ∧ (∀ w2 ch' c w3,
             resume g1 w2 = Delivered ch' c w3 →
             ch' = ch
             ∧ now w + 505 * time.Millisecond ≤ now w2
             ∧ ∃ w', Call t method flags args w2 = Returned c w'
                     ∧ send ch c w' = Returned tt w3)
        ∧ (∀ w2 g2 w',
             resume g1 w2 = Parked g2 w' →
             now w + 505 * time.Millisecond ≤ now w2
             ∧ ∃ c, Call t method flags args w2 = Returned c w'
                    ∧ send ch c w' = Blocked
                    ∧ ∀ w3 ch' c' w4,
                        now w2 ≤ now w3 →
                        resume g2 w3 = Delivered ch' c' w4 →
                        ch' = ch ∧ c' = c
                        ∧ now w + 505 * time.Millisecond ≤ now w3
                        ∧ send ch c w3 = Returned tt w4)
        ∧ (∀ w2 c w' w3,
             now w1 + 505 * time.Millisecond ≤ now w2 →
             Call t method flags args w2 = Returned c w' →
             send ch c w' = Returned tt w3 →
             resume g1 w2 = Delivered ch c w3).
Proof.
  split; [reflexivity|]. intros w1 Hmono. eexists. split; [reflexivity|].
  unfold resume; simpl. split; [|split; [|split]].
  - intros w2 Hearly. apply Z.ltb_lt in Hearly. by rewrite Hearly.
  - intros w2 ch' c w3.
    destruct (now w2 <? now w1 + 505 * time.Millisecond) eqn:Hlt; [discriminate|].
    apply Z.ltb_ge in Hlt.
    destruct (Call t method flags args w2) as [c0 w'| |]; try discriminate.
    unfold deliver. simpl.
    destruct (send ch c0 w') as [[] w3'| |] eqn:Hsend; try discriminate.
    intros [= <- <- <-]. split; [done|]. split; [lia|]. by exists w'.
  - intros w2 g2 w'.
    destruct (now w2 <? now w1 + 505 * time.Millisecond) eqn:Hlt; [discriminate|].
    apply Z.ltb_ge in Hlt.
    destruct (Call t method flags args w2) as [c0 w0| |]; try discriminate.
    unfold deliver. simpl.
    destruct (send ch c0 w0) as [[] w3'| |] eqn:Hsend; try discriminate.
    intros [= <- <-]. split; [lia|]. exists c0. split; [done|].
    split; [done|]. intros w3 ch' c' w4 Hmono3. simpl.
    destruct (send ch c0 w3) as [[] w4'| |] eqn:Hsend3; try discriminate.
    intros [= <- <- <-]. split; [done|]. split; [done|]. split; [lia|done].
  - intros w2 c w' w3 Hlate Hcall Hsend. apply Z.ltb_ge in Hlate.
    rewrite Hlate, Hcall. unfold deliver. simpl. by rewrite Hsend.
Qed.

End Async.

Section AsyncExamples.
#[local] Existing Instance Sample.pkg.
#[local] Existing Instance Sample.cls.

(** [Go] at time 0 on the channel with room for one record; the goroutine
    falls asleep at 1 ms, is not runnable at 400 ms and delivers the record
    of the missing method at 506 ms. *)
Lemma Go_delivers_Call_after_delay_witness :
  Go Sample.bound "Ping" 0 (Some 7%nat) [] (Sample.at_time 0)
  = Returned None
      (set_goroutines
         (fun gs => gs ++ [spawned Sample.bound "Ping" 0 (Some 7%nat) []])
         (Sample.at_time 0))
  ∧ ∃ g1 c w3,
      resume (spawned Sample.bound "Ping" 0 (Some 7%nat) [])
        (Sample.at_time 1000000)
      = Asleep g1
      ∧ resume g1 (Sample.at_time 400000000) = NotRunnable
      ∧ Call Sample.bound "Ping" 0 [] (Sample.at_time 506000000)
        = Returned (Some c) (Sample.at_time 506000000)
      ∧ dbus.Err c = Some "No such method: org.example.Player.Ping"
      ∧ resume g1 (Sample.at_time 506000000) = Delivered (Some 7%nat) (Some c) w3
      ∧ ch_buf <$> chans w3 !! 7%nat = Some [Some c].
Proof.
  destruct (Go_delivers_Call_after_delay Sample.bound "Ping" 0 (Some 7%nat) []
              (Sample.at_time 0)) as [HGo Hrun].
  split; [exact HGo|].
  destruct (Hrun (Sample.at_time 1000000))
    as (g1 & Hsleep & Hearly & _ & _ & Hlate); [simpl; lia|].
  assert (Hl : live Sample.bound (Sample.at_time 506000000))
    by (vm_compute; reflexivity).
  assert (Hp : points_to Sample.bound Sample.the_obj (Sample.at_time 506000000))
    by (split; reflexivity).
  pose proof (Call_spec Sample.bound Sample.the_obj "Ping" 0 []
                (Sample.at_time 506000000) Hl Hp) as Hcall.
  change (lookup_call Sample.the_obj
            (expand (dest Sample.the_obj) "Ping")) with (@None handler) in Hcall.
  cbv iota in Hcall.
  eexists g1, _, _. split; [exact Hsleep|].
  split; [apply Hearly; simpl; unfold time.Millisecond; lia|].
  split; [exact Hcall|]. split; [reflexivity|]. split.
  - eapply Hlate; [simpl; unfold time.Millisecond; lia|exact Hcall|].
    reflexivity.
  - vm_compute. reflexivity.
Defined.

End AsyncExamples.

(** ** Handlers: registration order, other methods, other handles *)

(** The world [w], [d] nanoseconds later. *)
Definition later (d : Z) (w : world) : world :=
  {| services := services w; conns := conns w; objects := objects w;
     emitted := emitted w; now := now w + d; goroutines := goroutines w;
     chans := chans w |}.

(** What an operation comes to in another world, when it leaves the world
    alone: the same value, the same panic. *)
Definition same_answer {A} (r : outcome A) (w' : world) : outcome A :=
  match r with
  | Returned a _ => Returned a w'
  | Panicked p => Panicked p
  | Blocked => Blocked
  end.

Section Handlers.
Context `{Pkg : Package} `{Cls : Closures}.

(** [On] needs neither a registered service nor an open connection: it only
    takes the mutex of the object. *)
Lemma On_points_to t o method do w :
  points_to t o w →
  points_to t (set_calls (insert (expand (dest o) method) do) o)
    (set_objects
       (insert (obj t) (set_calls (insert (expand (dest o) method) do) o)) w).
Proof. intros [Ho Hmu]. split; [apply lookup_set_objects|done]. Qed.

(** Two handles on one object: what holds of the object through one handle
    holds through the other. *)
Lemma points_to_alias t1 t2 o w :
  obj t1 = obj t2 → points_to t1 o w → points_to t2 o w.
Proof. unfold points_to. by intros ->. Qed.

(** Time alone changes neither liveness nor the objects. *)
Lemma live_later t d w : live t w → live t (later d w).
Proof. rewrite !live_inv. done. Qed.

(** X1: The last registration for a name wins, and the one before leaves no
    trace: registering twice leaves the world that the second registration
    alone leaves.  A call then runs the second handler and no other, and
    when the second registration is the nil function the method is gone
    again. *)
Theorem On_last_registration_wins t o m do1 do2 flags args w :
  live t w → points_to t o w →
  ∃ w1 w2 o2,
    On t m do1 w = Returned tt w1
    ∧ On t m do2 w1 = Returned tt w2
    ∧ On t m do2 w = Returned tt w2
    ∧ points_to t o2 w2
    ∧ lookup_call o2 (expand (dest o2) m) = do2
    ∧ match do2 with
      | Some h =>
          match invoke h args (locked t o2 w2) with
          | Returned r w3 =>
              ∀ o3, objects w3 !! obj t = Some o3 →
                ∃ c,
                  Call t m flags args w2 = Returned (Some c) (unlocked t o3 w3)
                  ∧ dbus.Body c = r.1 ∧ dbus.Err c = r.2
          | Panicked p => Call t m flags args w2 = Panicked (InHandler p)
          | Blocked => Call t m flags args w2 = Blocked
          end
      | None =>
          ∃ c,
            Call t m flags args w2 = Returned (Some c) w2
            ∧ dbus.Body c = []
            ∧ dbus.Err c = Some ("No such method: " +:+ expand (dest o) m)
      end.
Proof.
  intros Hl Hp.
  destruct (On_keeps t o m do1 w Hl Hp) as [Hl1 Hp1].
  destruct (On_keeps t o m do2 w Hl Hp) as [Hl2 Hp2].
  cbv zeta in *.
  set (o2 := set_calls (insert (expand (dest o) m) do2) o) in *.
  set (w2 := set_objects (insert (obj t) o2) w) in *.
  assert (Hlook : lookup_call o2 (expand (dest o2) m) = do2).
  { unfold lookup_call. simpl. rewrite lookup_insert_eq. done. }
  exists (set_objects
            (insert (obj t) (set_calls (insert (expand (dest o) m) do1) o)) w),
         w2, o2.
  split; [by apply On_spec|]. split.
  { rewrite (On_spec t _ m do2 _ Hp1). unfold w2. rewrite set_objects_insert.
    do 3 f_equal. unfold o2. destruct o; unfold set_calls; simpl.
    by rewrite insert_insert_eq. }
  split; [by apply On_spec|]. split; [exact Hp2|]. split; [exact Hlook|].
  destruct do2 as [h|].
  - pose proof (Call_with_handler t o2 m h flags args w2 Hl2 Hp2 Hlook) as Hc.
    destruct (invoke h args _) as [r w3| |]; [|exact Hc..].
    intros o3 Ho3. eexists. split; [exact (Hc o3 Ho3)|]. done.
  - eexists. split.
    + rewrite (Call_spec t o2 m flags args w2 Hl2 Hp2), Hlook. reflexivity.
    + done.
Qed.

(** X2: Registering a handler changes, in the whole world, one entry of the
    handler table of the object: the handlers of names with another
    expansion, the properties, the identity of the object, the other
    objects, the signals, the services and the connections stay.  Reading a
    property gives the answer it gave, and a method that had no handler
    still has none. *)
Theorem On_leaves_the_rest t o m do w :
  live t w → points_to t o w →
  ∃ w1 o1,
    On t m do w = Returned tt w1
    ∧ points_to t o1 w1
    ∧ (∀ m', expand (dest o) m' ≠ expand (dest o) m →
         lookup_call o1 (expand (dest o1) m') = lookup_call o (expand (dest o) m'))
    ∧ props o1 = props o ∧ dest o1 = dest o ∧ path o1 = path o ∧ svc o1 = svc o
    ∧ (∀ a, a ≠ obj t → objects w1 !! a = objects w !! a)
    ∧ emitted w1 = emitted w ∧ conns w1 = conns w ∧ services w1 = services w
    ∧ (∀ p, GetProperty t p w1 = same_answer (GetProperty t p w) w1)
    ∧ (∀ m' fl a,
         expand (dest o) m' ≠ expand (dest o) m →
         lookup_call o (expand (dest o) m') = None →
         ∃ c, Call t m' fl a w = Returned (Some c) w
              ∧ Call t m' fl a w1 = Returned (Some c) w1
              ∧ dbus.Err c = Some ("No such method: " +:+ expand (dest o) m')).
Proof.
  intros Hl Hp.
  destruct (On_keeps t o m do w Hl Hp) as [Hl1 Hp1]. cbv zeta in *.
  eexists _, _. split; [by apply On_spec|]. split; [exact Hp1|].
  assert (Hframe : ∀ m', expand (dest o) m' ≠ expand (dest o) m →
            lookup_call (set_calls (insert (expand (dest o) m) do) o)
              (expand (dest o) m') = lookup_call o (expand (dest o) m')).
  { intros m' Hne. unfold lookup_call. simpl. by rewrite lookup_insert_ne. }
  split; [exact Hframe|]. do 4 (split; [done|]).
  split; [intros a Ha; simpl; by rewrite lookup_insert_ne|].
  do 3 (split; [done|]). split.
  - intros p. rewrite (GetProperty_spec t _ p _ Hl1 Hp1).
    rewrite (GetProperty_spec t o p w Hl Hp). simpl.
    destruct (props o !! p) as [[]|]; reflexivity.
  - intros m' fl a Hne Hnone. eexists. split; [|split].
    + rewrite (Call_spec t o m' fl a w Hl Hp), Hnone. reflexivity.
    + rewrite (Call_spec t _ m' fl a _ Hl1 Hp1). simpl.
      rewrite (Hframe m' Hne), Hnone. reflexivity.
    + done.
Qed.

(** X3: A handler registered through one handle is the one that a call
    through any live handle on the same object runs, also when the
    registering handle is itself not live. *)
Theorem On_seen_through_other_handle t1 t2 o m h flags args w :
  obj t1 = obj t2 → live t2 w → points_to t1 o w →
  ∃ w1 o1,
    On t1 m (Some h) w = Returned tt w1
    ∧ points_to t2 o1 w1
    ∧ lookup_call o1 (expand (dest o1) m) = Some h
    ∧ match invoke h args (locked t2 o1 w1) with
      | Returned r w2 =>
          ∀ o2, objects w2 !! obj t2 = Some o2 →
            ∃ c,
              Call t2 m flags args w1 = Returned (Some c) (unlocked t2 o2 w2)
              ∧ dbus.Body c = r.1 ∧ dbus.Err c = r.2
      | Panicked p => Call t2 m flags args w1 = Panicked (InHandler p)
      | Blocked => Call t2 m flags args w1 = Blocked
      end.
Proof.
  intros Hobj Hl2 Hp1.
  pose proof (points_to_alias t1 t2 o w Hobj Hp1) as Hp2.
  destruct (On_keeps t2 o m (Some h) w Hl2 Hp2) as [Hl' Hp']. cbv zeta in *.
  assert (Hlook : lookup_call (set_calls (insert (expand (dest o) m) (Some h)) o)
                    (expand (dest o) m) = Some h).
  { unfold lookup_call. simpl. rewrite lookup_insert_eq. done. }
  eexists _, _. split; [by apply On_spec|]. rewrite Hobj.
  split; [exact Hp'|]. split; [exact Hlook|].
  pose proof (Call_with_handler t2 _ m h flags args _ Hl' Hp' Hlook) as Hc.
  destruct (invoke h args _) as [r w2| |]; [|exact Hc..].
  intros o2 Ho2. eexists. split; [exact (Hc o2 Ho2)|]. done.
Qed.


End Handlers.

(** ** Properties: overwriting, other keys, other handles *)

Section PropertyStore.
Context `{Pkg : Package}.

(** What [SetProperty] leaves behind on a live object, when it does not ask
    for the variant of nil. *)
Lemma SetProperty_result t o prop v signal w :
  live t w → points_to t o w →
  (signal = true → v ≠ VNil) →
  ∃ w1 s,
    SetProperty t prop v signal w = Returned tt w1
    ∧ live t w1
    ∧ points_to t (set_props (insert (expand (dest o) prop) v) o) w1
    ∧ services w !! svc o = Some s
    ∧ services w1 = services w
    ∧ conns w1 = conns w
    ∧ goroutines w1 = goroutines w
    ∧ chans w1 = chans w
    ∧ emitted w1
      = emitted w
        ++ (if signal
            then [props_changed_signal o s (expand (dest o) prop) v]
            else []).
Proof.
  intros Hl Hp Hv.
  destruct (proj1 (live_inv t w) Hl) as (o0 & s & Ho0 & Hs & _).
  assert (o0 = o) as -> by (destruct Hp; congruence).
  destruct (SetProperty_keeps t o (expand (dest o) prop) v w Hl Hp) as [Hl1 Hp1].
  eexists _, s. split; [by eapply (SetProperty_spec t o s prop v signal)|].
  destruct Hp as [Ho Hmu]. destruct signal.
  - split.
    { eapply live_transfer; [exact Ho|apply lookup_set_objects|done..]. }
    split; [split; [apply lookup_set_objects|done]|]. done.
  - split; [exact Hl1|]. split; [exact Hp1|]. simpl. by rewrite app_nil_r.
Qed.





End PropertyStore.

(** ** Match rules: removal, duplicates, names, connections *)

Section MatchTable.
Context `{Pkg : Package} `{Rng : MapRange}.

(** What a successful [AddMatchSignal] leaves behind. *)
Lemma AddMatchSignal_result t c cn iface member options w :
  live t w → bound_to t c cn w →
  (∀ k, is_Some (dbusMatchOptionMap options !! k) → supported k = true) →
  let name := iface +:+ "." +:+ member in
  let optMap := dbusMatchOptionMap options in
  let cn1 := set_matches (insert name (lookup_matches cn name ++ [optMap])) cn in
  let w1 := set_conns (insert c cn1) w in
  AddMatchSignal t iface member options w
  = Returned (matchCallResult "AddMatch" None) w1
  ∧ live t w1 ∧ bound_to t c cn1 w1.
Proof.
  intros Hl Hb Hall name optMap cn1 w1.
  pose proof (AddMatchSignal_spec t c cn iface member options w Hl Hb) as Hadd.
  cbv zeta in Hadd. fold name optMap in Hadd.
  assert (first_unsupported (range_keys optMap) = None) as Hnone.
  { apply first_unsupported_None. intros k Hk.
    apply Hall, elem_of_range_keys, Hk. }
  rewrite Hnone in Hadd. split; [exact Hadd|].
  destruct Hb as (Hc & Hcn & Hmu).
  split; [by eapply live_set_conns|].
  split; [done|split; [apply lookup_set_conns|done]].
Qed.

(** What a successful [RemoveMatchSignal] leaves behind. *)
Lemma RemoveMatchSignal_result t c cn iface member options w :
  live t w → bound_to t c cn w →
  let name := iface +:+ "." +:+ member in
  let optMap := dbusMatchOptionMap options in
  let ms := lookup_matches cn name in
  optMap ∈ ms →
  ∃ l1 l2,
    ms = l1 ++ (optMap :: l2) ∧ (optMap ∉ l1)
    ∧ (let cn1 := set_matches (insert name (l1 ++ l2)) cn in
       let w1 := set_conns (insert c cn1) w in
       RemoveMatchSignal t iface member options w
       = Returned (matchCallResult "RemoveMatch" None) w1
       ∧ live t w1 ∧ bound_to t c cn1 w1).
Proof.
  intros Hl Hb name optMap ms Hin.
  pose proof (RemoveMatchSignal_spec t c cn iface member options w Hl Hb) as Hrem.
  cbv zeta in Hrem. fold name optMap ms in Hrem.
  destruct (list_find (fun m => m = optMap) ms) as [[i m]|] eqn:Hfind; last first.
  { apply list_find_None in Hfind. rewrite Forall_forall in Hfind.
    by destruct (Hfind optMap Hin). }
  apply list_find_Some in Hfind as (Hi & -> & Hfirst).
  exists (take i ms), (drop (S i) ms).
  split; [by rewrite take_drop_middle|].
  split.
  { intros (j & Hj)%list_elem_of_lookup_1.
    pose proof (lookup_lt_Some _ _ _ Hj) as Hlen. rewrite length_take in Hlen.
    rewrite lookup_take_lt in Hj by lia.
    by apply (Hfirst j optMap Hj); [lia|]. }
  cbv zeta. split; [exact Hrem|].
  destruct Hb as (Hc & Hcn & Hmu).
  split; [by eapply live_set_conns|].
  split; [done|split; [apply lookup_set_conns|done]].
Qed.

(** X9: [RemoveMatchSignal] succeeds exactly on a rule that is in the list of
    the name.  It then takes out the first occurrence and keeps the other
    rules in their order; the rules of other names and the objects are not
    touched. *)
Theorem RemoveMatchSignal_removes_first_occurrence t c cn iface member options w :
  live t w → bound_to t c cn w →
  let name := iface +:+ "." +:+ member in
  let optMap := dbusMatchOptionMap options in
  let ms := lookup_matches cn name in
  optMap ∈ ms →
  ∃ r w1 cn1 l1 l2,
    RemoveMatchSignal t iface member options w = Returned (Some r) w1
    ∧ dbus.Err r = None
    ∧ conns w1 !! c = Some cn1
    ∧ ms = l1 ++ (optMap :: l2)
    ∧ (optMap ∉ l1)
    ∧ lookup_matches cn1 name = l1 ++ l2
    ∧ (∀ name', name' ≠ name → matches cn1 !! name' = matches cn !! name')
    ∧ (∀ c', c' ≠ c → conns w1 !! c' = conns w !! c')
    ∧ objects w1 = objects w.
Proof.
  intros Hl Hb name optMap ms Hin.
  destruct (RemoveMatchSignal_result t c cn iface member options w Hl Hb Hin)
    as (l1 & l2 & Hsplit & Hl1 & Hrem & _ & _).
  destruct (matchCallResult_Some "RemoveMatch" None) as (r & Hr & Herr & _).
  rewrite Hr in Hrem.
  eexists r, _, _, l1, l2. split; [exact Hrem|]. split; [exact Herr|].
  split; [apply lookup_set_conns|]. split; [exact Hsplit|].
  split; [exact Hl1|]. split.
  { unfold lookup_matches. simpl. by rewrite lookup_insert_eq. }
  split; [intros name' Hne; simpl; by rewrite lookup_insert_ne|].
  split; [intros c' Hne; simpl; by rewrite lookup_insert_ne|]. done.
Qed.

(** The loop of [RemoveMatchSignal] finds nothing, and the failure is
    returned from the world as it was. *)
Lemma RemoveMatchSignal_absent t c cn iface member options w :
  live t w → bound_to t c cn w →
  dbusMatchOptionMap options ∉ lookup_matches cn (iface +:+ "." +:+ member) →
  RemoveMatchSignal t iface member options w
  = Returned (matchCallResult "RemoveMatch" (Some "Match not found")) w.
Proof.
  intros Hl Hb Hnotin.
  rewrite (RemoveMatchSignal_spec t c cn iface member options w Hl Hb).
  cbv zeta.
  assert (list_find (fun m => m = dbusMatchOptionMap options)
            (lookup_matches cn (iface +:+ "." +:+ member)) = None) as ->;
    [|reflexivity].
  apply list_find_None, Forall_forall. intros m Hm ->. by apply Hnotin.
Qed.

(** X10: [RemoveMatchSignal] of a rule that is not in the list of the name -- an
    empty list, a name never subscribed, options with keys that
    [AddMatchSignal] would refuse -- returns [Match not found], a record of
    the bus, and changes nothing: it makes no check of the keys. *)
Theorem RemoveMatchSignal_not_found t c cn iface member options w :
  live t w → bound_to t c cn w →
  dbusMatchOptionMap options ∉ lookup_matches cn (iface +:+ "." +:+ member) →
  ∃ r,
    RemoveMatchSignal t iface member options w = Returned (Some r) w
    ∧ dbus.Err r = Some "Match not found"
    ∧ dbus.Method r = expand bus "RemoveMatch".
Proof.
  intros Hl Hb Hnotin.
  pose proof (RemoveMatchSignal_absent t c cn iface member options w
                Hl Hb Hnotin) as Hrem.
  destruct (matchCallResult_Some "RemoveMatch" (Some "Match not found"))
    as (r & Hr & Herr & Hmeth & _).
  exists r. split; [by rewrite Hrem, Hr|]. split; [exact Herr|].
  exact Hmeth.
Qed.

(** X11: Subscriptions are counted, not merged: after the same accepted
    options are added twice, the list holds them twice more, and two
    removals succeed, whatever the list held before; they leave a list of
    the length it had.  When the rule was not there before, that list is the
    one it was, and a third removal fails. *)
Theorem AddMatchSignal_twice_needs_two_removals t c cn iface member options w :
  live t w → bound_to t c cn w →
  (∀ k, is_Some (dbusMatchOptionMap options !! k) → supported k = true) →
  let name := iface +:+ "." +:+ member in
  let optMap := dbusMatchOptionMap options in
  let ms := lookup_matches cn name in
  ∃ a1 w1 a2 w2 r1 w3 r2 w4 cn2 cn4,
    AddMatchSignal t iface member options w = Returned (Some a1) w1
    ∧ AddMatchSignal t iface member options w1 = Returned (Some a2) w2
    ∧ RemoveMatchSignal t iface member options w2 = Returned (Some r1) w3
    ∧ RemoveMatchSignal t iface member options w3 = Returned (Some r2) w4
    ∧ dbus.Err a1 = None ∧ dbus.Err a2 = None
    ∧ dbus.Err r1 = None ∧ dbus.Err r2 = None
    ∧ conns w2 !! c = Some cn2
    ∧ lookup_matches cn2 name = ms ++ [optMap; optMap]
    ∧ conns w4 !! c = Some cn4
    ∧ length (lookup_matches cn4 name) = length ms
    ∧ ((optMap ∉ ms) →
       lookup_matches cn4 name = ms
       ∧ ∃ r3,
           RemoveMatchSignal t iface member options w4 = Returned (Some r3) w4
           ∧ dbus.Err r3 = Some "Match not found").
Proof.
  intros Hl Hb Hall name optMap ms.
  destruct (AddMatchSignal_result t c cn iface member options w Hl Hb Hall)
    as (Ha1 & Hl1 & Hb1).
  fold name optMap ms in Ha1, Hl1, Hb1.
  set (cn1 := set_matches (insert name (ms ++ [optMap])) cn) in *.
  set (w1 := set_conns (insert c cn1) w) in *.
  assert (lookup_matches cn1 name = ms ++ [optMap]) as Hms1
    by (unfold lookup_matches; simpl; by rewrite lookup_insert_eq).
  destruct (AddMatchSignal_result t c cn1 iface member options w1 Hl1 Hb1 Hall)
    as (Ha2 & Hl2 & Hb2).
  fold name optMap in Ha2, Hl2, Hb2. rewrite Hms1 in Ha2, Hl2, Hb2.
  set (cn2 := set_matches (insert name ((ms ++ [optMap]) ++ [optMap])) cn1) in *.
  set (w2 := set_conns (insert c cn2) w1) in *.
  assert (lookup_matches cn2 name = (ms ++ [optMap]) ++ [optMap]) as Hms2
    by (unfold lookup_matches; simpl; by rewrite lookup_insert_eq).
  (* first removal: the rule is there, and is still there afterwards *)
  destruct (RemoveMatchSignal_result t c cn2 iface member options w2 Hl2 Hb2)
    as (l1 & l2 & Hsplit & Hl1' & Hr1 & Hl3 & Hb3).
  { fold name optMap. rewrite Hms2. set_solver. }
  fold name optMap in Hsplit, Hl1', Hr1, Hl3, Hb3. rewrite Hms2 in Hsplit.
  assert (∃ l2', l2 = l2' ++ [optMap] ∧ ms ++ [optMap] = l1 ++ optMap :: l2')
    as (l2' & -> & Hsplit').
  { destruct l2 as [|y l2' _] using rev_ind.
    - apply app_inj_tail in Hsplit as [<- _]. exfalso. apply Hl1'. set_solver.
    - exists l2'. change (l1 ++ optMap :: l2' ++ [y])
        with (l1 ++ (optMap :: l2') ++ [y]) in Hsplit.
      rewrite app_assoc in Hsplit.
      apply app_inj_tail in Hsplit as [Hsplit <-]. done. }
  set (cn3 := set_matches (insert name (l1 ++ l2' ++ [optMap])) cn2) in *.
  set (w3 := set_conns (insert c cn3) w2) in *.
  assert (lookup_matches cn3 name = l1 ++ l2' ++ [optMap]) as Hms3
    by (unfold lookup_matches; simpl; by rewrite lookup_insert_eq).
  (* second removal *)
  destruct (RemoveMatchSignal_result t c cn3 iface member options w3 Hl3 Hb3)
    as (k1 & k2 & Hsplit2 & Hk1 & Hr2 & Hl4 & Hb4).
  { fold name optMap. rewrite Hms3. set_solver. }
  fold name optMap in Hsplit2, Hk1, Hr2, Hl4, Hb4. rewrite Hms3 in Hsplit2.
  set (cn4 := set_matches (insert name (k1 ++ k2)) cn3) in *.
  set (w4 := set_conns (insert c cn4) w3) in *.
  assert (lookup_matches cn4 name = k1 ++ k2) as Hms4
    by (unfold lookup_matches; simpl; by rewrite lookup_insert_eq).
  assert (length (k1 ++ k2) = length ms) as Hlen.
  { apply (f_equal length) in Hsplit', Hsplit2.
    rewrite !length_app in *. simpl in *. rewrite ?length_app in *.
    simpl in *. lia. }
  destruct (matchCallResult_Some "AddMatch" None) as (a & Ha & Herra & _).
  destruct (matchCallResult_Some "RemoveMatch" None) as (r & Hr & Herrr & _).
  rewrite Ha in Ha1, Ha2. rewrite Hr in Hr1, Hr2.
  exists a, w1, a, w2, r, w3, r, w4, cn2, cn4.
  split; [exact Ha1|]. split; [exact Ha2|]. split; [exact Hr1|].
  split; [exact Hr2|]. split; [exact Herra|]. split; [exact Herra|].
  split; [exact Herrr|]. split; [exact Herrr|].
  split; [apply lookup_set_conns|].
  split; [by rewrite Hms2, <- app_assoc|].
  split; [apply lookup_set_conns|]. split; [by rewrite Hms4|].
  intros Hnotin.
  apply not_elem_of_app_cons_inv_l in Hsplit' as (<- & _ & <-); [|done..].
  simpl in Hsplit2.
  apply not_elem_of_app_cons_inv_l in Hsplit2 as (<- & _ & <-); [|done..].
  rewrite app_nil_r in Hms4. split; [exact Hms4|].
  pose proof (RemoveMatchSignal_absent t c cn4 iface member options w4 Hl4 Hb4)
    as Hr3.
  fold name optMap in Hr3. rewrite Hms4 in Hr3. specialize (Hr3 Hnotin).
  destruct (matchCallResult_Some "RemoveMatch" (Some "Match not found"))
    as (r3 & Hs3 & Herr3 & _).
  rewrite Hs3 in Hr3. by exists r3.
Qed.

End MatchTable.

(** Every rule of the connection has only keys that [AddMatchSignal] lets
    through. *)
Definition rules_supported (cn : testBusConnection) : Prop :=
  ∀ name ms (m : rule) k,
    matches cn !! name = Some ms → m ∈ ms → is_Some (m !! k) →
    supported k = true.

Section MatchInvariant.
Context `{Pkg : Package} `{Rng : MapRange}.

(** X12: The match table never holds a rule with an unsupported key: if that is
    so before [AddMatchSignal] or [RemoveMatchSignal], it is so after,
    whatever the options. *)
Theorem match_table_keeps_supported_keys t c cn iface member options w :
  live t w → bound_to t c cn w → rules_supported cn →
  (∃ r w1 cn1,
     AddMatchSignal t iface member options w = Returned r w1
     ∧ conns w1 !! c = Some cn1 ∧ rules_supported cn1)
  ∧ (∃ r w1 cn1,
       RemoveMatchSignal t iface member options w = Returned r w1
       ∧ conns w1 !! c = Some cn1 ∧ rules_supported cn1).
Proof.
  intros Hl Hb Hinv. pose proof Hb as (Hc & Hcn & Hmu). split.
  - rewrite (AddMatchSignal_spec t c cn iface member options w Hl Hb).
    destruct (first_unsupported (range_keys (dbusMatchOptionMap options)))
      as [k|] eqn:Hfirst.
    + eexists _, _, cn. split; [reflexivity|]. split; [exact Hcn|exact Hinv].
    + eexists _, _, _. split; [reflexivity|]. split; [apply lookup_set_conns|].
      intros name ms m k Hname Hm Hk. simpl in Hname.
      destruct (decide (name = iface +:+ "." +:+ member)) as [->|Hne].
      * rewrite lookup_insert_eq in Hname. injection Hname as <-.
        apply elem_of_app in Hm as [Hm|Hm].
        -- unfold lookup_matches in Hm.
           destruct (matches cn !! (iface +:+ "." +:+ member)) as [ms|] eqn:Hms;
             simpl in Hm; [by eapply Hinv|by apply elem_of_nil in Hm].
        -- apply list_elem_of_singleton in Hm as ->.
           eapply first_unsupported_None; [exact Hfirst|].
           by apply elem_of_range_keys.
      * rewrite lookup_insert_ne in Hname by done. by eapply Hinv.
  - rewrite (RemoveMatchSignal_spec t c cn iface member options w Hl Hb).
    destruct (list_find _ _) as [[i m0]|] eqn:Hfind.
    + eexists _, _, _. split; [reflexivity|]. split; [apply lookup_set_conns|].
      intros name ms m k Hname Hm Hk. simpl in Hname.
      destruct (decide (name = iface +:+ "." +:+ member)) as [->|Hne].
      * rewrite lookup_insert_eq in Hname. injection Hname as <-.
        assert (m ∈ lookup_matches cn (iface +:+ "." +:+ member)) as Hm'.
        { apply elem_of_app in Hm as [Hm|Hm].
          - exact (subseteq_take _ _ _ Hm).
          - exact (subseteq_drop _ _ _ Hm). }
        unfold lookup_matches in Hm'.
        destruct (matches cn !! (iface +:+ "." +:+ member)) as [ms|] eqn:Hms;
          simpl in Hm'; [by eapply Hinv|by apply elem_of_nil in Hm'].
      * rewrite lookup_insert_ne in Hname by done. by eapply Hinv.
    + eexists _, _, cn. split; [reflexivity|]. split; [exact Hcn|exact Hinv].
Qed.

(** X13: The table is keyed by the concatenation [iface.member]: a subscription
    made under one split of a name is removed under any other split of it. *)
Theorem match_name_is_the_concatenation t c cn i1 m1 i2 m2 options w :
  live t w → bound_to t c cn w →
  (∀ k, is_Some (dbusMatchOptionMap options !! k) → supported k = true) →
  i1 +:+ "." +:+ m1 = i2 +:+ "." +:+ m2 →
  ∃ a w1 r w2,
    AddMatchSignal t i1 m1 options w = Returned (Some a) w1
    ∧ dbus.Err a = None
    ∧ RemoveMatchSignal t i2 m2 options w1 = Returned (Some r) w2
    ∧ dbus.Err r = None.
Proof.
  intros Hl Hb Hall Hname.
  destruct (AddMatchSignal_result t c cn i1 m1 options w Hl Hb Hall)
    as (Ha & Hl1 & Hb1).
  destruct (RemoveMatchSignal_result t c _ i2 m2 options _ Hl1 Hb1)
    as (l1 & l2 & _ & _ & Hr & _).
  { rewrite <- Hname. unfold lookup_matches at 1. simpl.
    rewrite lookup_insert_eq. simpl. set_solver. }
  destruct (matchCallResult_Some "AddMatch" None) as (a & Hsa & Herra & _).
  destruct (matchCallResult_Some "RemoveMatch" None) as (r & Hsr & Herrr & _).
  rewrite Hsa in Ha. rewrite Hsr in Hr.
  eexists a, _, r, _. split; [exact Ha|]. split; [exact Herra|].
  split; [exact Hr|exact Herrr].
Qed.

(** X14: Rules belong to the connection of the handle: a subscription made
    through a handle on one connection leaves every other connection, the
    objects and the services as they were, whatever state they are in; and
    through a live handle on another connection, one that does not hold the
    rule, the subscription cannot be removed. *)
Theorem match_rules_are_per_connection t1 c1 cn1 iface member options w :
  live t1 w → bound_to t1 c1 cn1 w →
  (∀ k, is_Some (dbusMatchOptionMap options !! k) → supported k = true) →
  ∃ a w1,
    AddMatchSignal t1 iface member options w = Returned (Some a) w1
    ∧ dbus.Err a = None
    ∧ (∀ c', c' ≠ c1 → conns w1 !! c' = conns w !! c')
    ∧ objects w1 = objects w
    ∧ services w1 = services w
    ∧ ∀ t2 c2 cn2,
        c2 ≠ c1 → live t2 w → bound_to t2 c2 cn2 w →
        dbusMatchOptionMap options
        ∉ lookup_matches cn2 (iface +:+ "." +:+ member) →
        ∃ r,
          RemoveMatchSignal t2 iface member options w1 = Returned (Some r) w1
          ∧ dbus.Err r = Some "Match not found".
Proof.
  intros Hl1 Hb1 Hall.
  destruct (AddMatchSignal_result t1 c1 cn1 iface member options w Hl1 Hb1 Hall)
    as (Ha & _ & _).
  pose proof Hb1 as (Hc1 & Hcn1 & Hmu1).
  set (w1 := set_conns _ w) in Ha.
  destruct (matchCallResult_Some "AddMatch" None) as (a & Hsa & Herra & _).
  rewrite Hsa in Ha.
  exists a, w1. split; [exact Ha|]. split; [exact Herra|].
  split; [intros c' Hne; simpl; by rewrite lookup_insert_ne|].
  split; [done|]. split; [done|].
  intros t2 c2 cn2 Hne Hl2 Hb2 Hnotin.
  pose proof Hb2 as (Hc2 & Hcn2 & Hmu2).
  assert (conns w1 !! c2 = Some cn2) as Hcn2'
    by (simpl; by rewrite lookup_insert_ne).
  assert (live t2 w1) as Hl2' by (by eapply live_set_conns).
  assert (bound_to t2 c2 cn2 w1) as Hb2' by done.
  pose proof (RemoveMatchSignal_absent t2 c2 cn2 iface member options w1
                Hl2' Hb2' Hnotin) as Hr.
  destruct (matchCallResult_Some "RemoveMatch" (Some "Match not found"))
    as (r & Hsr & Herr & _).
  rewrite Hsr in Hr. by exists r.
Qed.

(** X15: On a live object that is bound to no connection the match operations
    dereference the nil connection: [RemoveMatchSignal] always panics, and
    [AddMatchSignal] panics when the keys are all supported -- an unsupported
    key is reported first, as on a bound object. *)
Theorem match_operations_need_a_connection t iface member options w :
  live t w → conn t = None →
  RemoveMatchSignal t iface member options w = Panicked NilDereference
  ∧ ((∀ k, is_Some (dbusMatchOptionMap options !! k) → supported k = true) →
     AddMatchSignal t iface member options w = Panicked NilDereference)
  ∧ ((∃ k, is_Some (dbusMatchOptionMap options !! k) ∧ supported k = false) →
     ∃ k,
       is_Some (dbusMatchOptionMap options !! k) ∧ supported k = false
       ∧ AddMatchSignal t iface member options w
         = Returned
             (matchCallResult "AddMatch"
                (Some ("Unsupported match type: " +:+ k))) w).
Proof.
  intros Hl Hc. split; [|split].
  - unfold RemoveMatchSignal. cbv zeta. mstep ltac:(exact Hl). by rewrite Hc.
  - intros Hall. unfold AddMatchSignal. cbv zeta. mstep ltac:(exact Hl).
    assert (first_unsupported (range_keys (dbusMatchOptionMap options)) = None)
      as ->.
    { apply first_unsupported_None. intros k Hk.
      apply Hall, elem_of_range_keys, Hk. }
    by rewrite Hc.
  - intros (k0 & Hk0 & Hbad).
    destruct (first_unsupported (range_keys (dbusMatchOptionMap options)))
      as [k|] eqn:Hfirst.
    + pose proof (first_unsupported_Some _ _ Hfirst) as [Hin Hk].
      exists k. split; [by apply elem_of_range_keys|]. split; [exact Hk|].
      unfold AddMatchSignal. cbv zeta. mstep ltac:(exact Hl).
      by rewrite Hfirst.
    + exfalso.
      assert (supported k0 = true) as Hok.
      { eapply first_unsupported_None; [exact Hfirst|].
        by apply elem_of_range_keys. }
      congruence.
Qed.

(** X16: [AddMatchSignal] checks the keys before it takes the mutex of the
    connection: while the mutex is held, options with an unsupported key are
    still refused at once, and everything else waits. *)
Theorem AddMatchSignal_validates_before_locking t c cn iface member options w :
  live t w → conn t = Some c → conns w !! c = Some cn → conn_mu cn = true →
  RemoveMatchSignal t iface member options w = Blocked
  ∧ ((∀ k, is_Some (dbusMatchOptionMap options !! k) → supported k = true) →
     AddMatchSignal t iface member options w = Blocked)
  ∧ ((∃ k, is_Some (dbusMatchOptionMap options !! k) ∧ supported k = false) →
     ∃ r k,
       AddMatchSignal t iface member options w = Returned (Some r) w
       ∧ supported k = false
       ∧ dbus.Err r = Some ("Unsupported match type: " +:+ k)).
Proof.
  intros Hl Hc Hcn Hmu.
  assert (Lock_conn c w = Blocked) as Hlock.
  { unfold Lock_conn. mstep ltac:(apply deref_conn_eq; exact Hcn).
    by rewrite Hmu. }
  split; [|split].
  - unfold RemoveMatchSignal. cbv zeta. mstep ltac:(exact Hl). rewrite Hc.
    unfold bind at 1. by rewrite Hlock.
  - intros Hall. unfold AddMatchSignal. cbv zeta. mstep ltac:(exact Hl).
    assert (first_unsupported (range_keys (dbusMatchOptionMap options)) = None)
      as ->.
    { apply first_unsupported_None. intros k Hk.
      apply Hall, elem_of_range_keys, Hk. }
    rewrite Hc. unfold bind at 1. by rewrite Hlock.
  - intros (k0 & Hk0 & Hbad).
    destruct (first_unsupported (range_keys (dbusMatchOptionMap options)))
      as [k|] eqn:Hfirst.
    + pose proof (first_unsupported_Some _ _ Hfirst) as [Hin Hk].
      destruct (matchCallResult_Some "AddMatch"
                  (Some ("Unsupported match type: " +:+ k)))
        as (r & Hr & Herr & _).
      exists r, k. split; [|split; [exact Hk|exact Herr]].
      unfold AddMatchSignal. cbv zeta. mstep ltac:(exact Hl).
      by rewrite Hfirst, <- Hr.
    + exfalso.
      assert (supported k0 = true) as Hok.
      { eapply first_unsupported_None; [exact Hfirst|].
        by apply elem_of_range_keys. }
      congruence.
Qed.

End MatchInvariant.

(** ** Locks and read-only operations *)

Lemma bind_Blocked {A B} (m : M A) (k : A → M B) w :
  m w = Blocked → bind m k w = Blocked.
Proof. unfold bind. by intros ->. Qed.

Lemma Lock_obj_held a o w :
  objects w !! a = Some o → mu o = true → Lock_obj a w = Blocked.
Proof.
  intros Ho Hmu. unfold Lock_obj.
  mstep ltac:(apply deref_obj_eq; exact Ho). by rewrite Hmu.
Qed.

Section Locks.
Context `{Pkg : Package} `{Cls : Closures}.

(** X17: While the mutex of a live object is held, the operations that take it
    -- [Call], [GetProperty], [SetProperty] and [On] -- wait; [Destination]
    and [Path] take no lock and answer, [Emit] hands its signal to the bus,
    and [Go] returns. *)
Theorem object_mutex_held t o s w :
  live t w → objects w !! obj t = Some o → services w !! svc o = Some s →
  mu o = true →
  (∀ m fl a, Call t m fl a w = Blocked)
  ∧ (∀ p, GetProperty t p w = Blocked)
  ∧ (∀ p v sg, SetProperty t p v sg w = Blocked)
  ∧ (∀ m do, On t m do w = Blocked)
  ∧ Destination t w = Returned (dest o) w
  ∧ Path t w = Returned (path o) w
  ∧ (∀ n a, ∃ w1, Emit t n a w = Returned tt w1
                  ∧ emitted w1
                    = emitted w ++ [{| sig_name := expand (dest o) n;
                                       sig_sender := id s; sig_path := path o;
                                       sig_body := a |}])
  ∧ (∀ m fl ch a, ∃ w1, Go t m fl ch a w = Returned None w1).
Proof.
  intros Hl Ho Hs Hmu.
  pose proof (Lock_obj_held (obj t) o w Ho Hmu) as Hlock.
  split.
  { intros. unfold Call. mstep ltac:(exact Hl). mstep_obj.
    by apply bind_Blocked. }
  split.
  { intros. unfold GetProperty. mstep ltac:(exact Hl). by apply bind_Blocked. }
  split.
  { intros. unfold SetProperty. mstep ltac:(exact Hl). by apply bind_Blocked. }
  split; [intros; unfold On; by apply bind_Blocked|].
  split; [unfold Destination; mstep ltac:(exact Hl); by mstep_obj|].
  split; [unfold Path; mstep ltac:(exact Hl); by mstep_obj|].
  split.
  { intros n a. eexists. split; [by eapply Emit_spec|]. done. }
  intros. by eexists.
Qed.

(** X18: [GetProperty], [Destination] and [Path] never write: whenever one
    of them returns, the liveness check had passed and the world, the mutex
    included, is exactly what it was.  So it is with a [Call] when the method
    has no handler; with a handler, the world a [Call] returns into is the
    one the handler left, with the mutex given back.  The record of a [Call]
    is never nil, carries the given arguments and has already been sent on
    its [Done] channel. *)
Theorem reads_leave_the_world t w :
  (∀ p r w1, GetProperty t p w = Returned r w1 → live t w ∧ w1 = w)
  ∧ (∀ r w1, Destination t w = Returned r w1 → live t w ∧ w1 = w)
  ∧ (∀ r w1, Path t w = Returned r w1 → live t w ∧ w1 = w)
  ∧ (∀ m fl a r w1,
       Call t m fl a w = Returned r w1 →
       live t w
       ∧ (∃ c, r = Some c ∧ dbus.Done c = true ∧ dbus.Args c = a)
       ∧ ∃ o, points_to t o w
              ∧ match lookup_call o (expand (dest o) m) with
                | None => w1 = w
                | Some h =>
                    ∃ r' w2 o2,
                      invoke h a (locked t o w) = Returned r' w2
                      ∧ objects w2 !! obj t = Some o2
                      ∧ w1 = unlocked t o2 w2
                end).
Proof.
  assert (∀ A (k : unit → M A) r w1,
            bind (check t) k w = Returned r w1 →
            live t w ∧ k tt w = Returned r w1) as Hck.
  { intros A k r w1. unfold bind at 1.
    destruct (check t w) as [[] w'| |] eqn:Hc; try discriminate.
    pose proof (check_world _ _ _ _ Hc) as ->. done. }
  assert (∀ A (k : unit → M A) r w1,
            bind (Lock_obj (obj t)) k w = Returned r w1 →
            ∃ o, points_to t o w) as Hlock.
  { intros A k r w1. unfold bind at 1, Lock_obj. unfold bind at 1, deref_obj.
    destruct (objects w !! obj t) as [o|] eqn:Ho; [|discriminate].
    destruct (mu o) eqn:Hmu; [discriminate|]. intros _. by exists o. }
  split; [|split; [|split]].
  - intros p r w1 H. unfold GetProperty in H. apply Hck in H as [Hl H].
    split; [exact Hl|].
    destruct (Hlock _ _ _ _ H) as (o & Hp).
    assert (HG : GetProperty t p w = Returned r w1).
    { unfold GetProperty. by erewrite bind_Returned by exact Hl. }
    rewrite (GetProperty_spec t o p w Hl Hp) in HG.
    destruct (props o !! p) as [[]|]; try discriminate HG;
      by injection HG as _ <-.
  - intros r w1 H. unfold Destination in H. apply Hck in H as [Hl H].
    split; [exact Hl|]. unfold bind, deref_obj, ret in H.
    destruct (objects w !! obj t); [by injection H as <- <-|discriminate].
  - intros r w1 H. unfold Path in H. apply Hck in H as [Hl H].
    split; [exact Hl|]. unfold bind, deref_obj, ret in H.
    destruct (objects w !! obj t); [by injection H as <- <-|discriminate].
  - intros m fl a r w1 H. pose proof H as HC.
    unfold Call in H. apply Hck in H as [Hl H]. split; [exact Hl|].
    unfold bind at 1 in H. unfold deref_obj at 1 in H.
    destruct (objects w !! obj t) as [o0|] eqn:Ho0; [|discriminate].
    destruct (Hlock _ _ _ _ H) as (o & Hp).
    assert (o0 = o) as -> by (destruct Hp; congruence). clear H.
    rewrite (Call_spec t o m fl a w Hl Hp) in HC.
    destruct (lookup_call o (expand (dest o) m)) as [h|] eqn:Hh.
    + destruct (invoke h a (locked t o w)) as [r' w2| |] eqn:Hinv;
        try discriminate.
      unfold Unlock_obj, modify_obj in HC. unfold bind at 1 2 in HC.
      unfold deref_obj in HC.
      destruct (objects w2 !! obj t) as [o2|] eqn:Ho2;
        simpl in HC; [|discriminate].
      unfold ret in HC. injection HC as <- <-.
      split; [by eexists|]. exists o. split; [exact Hp|]. rewrite Hh.
      by exists r', w2, o2.
    + injection HC as <- <-. split; [by eexists|]. exists o.
      split; [exact Hp|]. by rewrite Hh.
Qed.

End Locks.

(** ** What the operations leave behind *)

(** The handle [t], bound to [c], is live and both mutexes are free. *)
Definition quiet `{Package} (t : TestBusObject) (c : addr) (w : world) : Prop :=
  live t w ∧ (∃ o, points_to t o w) ∧ (∃ cn, bound_to t c cn w).

(** Whatever [m] returns satisfies [P]. *)
Definition returns_only {A} (P : A → Prop) (m : M A) : Prop :=
  ∀ w a w', m w = Returned a w' → P a.

Lemma returns_only_bind {A B} (P : B → Prop) (m : M A) (k : A → M B) :
  (∀ a, returns_only P (k a)) → returns_only P (bind m k).
Proof.
  intros Hk w b w'. unfold bind.
  destruct (m w) as [a w0| |]; [apply Hk|discriminate..].
Qed.

Lemma returns_only_ret {A} (P : A → Prop) (a : A) : P a → returns_only P (ret a).
Proof. intros Ha w a' w' [= <- _]. exact Ha. Qed.

Lemma returns_only_raise {A} (P : A → Prop) p : returns_only P (@raise A p).
Proof. intros w a w'. discriminate. Qed.

Section Aftermath.
Context `{Pkg : Package} `{Rng : MapRange} `{Cls : Closures}.

(** X19: No operation leaks a lock or kills the object: from a world where the
    handle is live and the mutexes of its object and of its connection are
    free, whatever [On], [SetProperty], [Emit], [AddMatchSignal] or
    [RemoveMatchSignal] returns into is again such a world.  This covers the
    early return of [AddMatchSignal] and both exits of
    [RemoveMatchSignal]. *)
Theorem operations_release_their_locks t c w :
  quiet t c w →
  (∀ m do w1, On t m do w = Returned tt w1 → quiet t c w1)
  ∧ (∀ p v sg w1, SetProperty t p v sg w = Returned tt w1 → quiet t c w1)
  ∧ (∀ n a w1, Emit t n a w = Returned tt w1 → quiet t c w1)
  ∧ (∀ i m os r w1, AddMatchSignal t i m os w = Returned r w1 → quiet t c w1)
  ∧ (∀ i m os r w1, RemoveMatchSignal t i m os w = Returned r w1 → quiet t c w1).
Proof.
  intros (Hl & (o & Hp) & (cn & Hb)).
  pose proof Hp as [Ho Hmu]. pose proof Hb as (Hc & Hcn & Hcmu).
  assert (∀ cn1, closed cn1 = closed cn → conn_mu cn1 = false →
                 quiet t c (set_conns (insert c cn1) w)) as Hconn.
  { intros cn1 Hcl Hmu1. split; [by eapply live_set_conns|].
    split; [by exists o|]. exists cn1.
    split; [done|split; [apply lookup_set_conns|done]]. }
  split; [|split; [|split; [|split]]].
  - intros m do w1 H. rewrite (On_spec t o m do w Hp) in H. injection H as <-.
    destruct (On_keeps t o m do w Hl Hp) as [Hl1 Hp1].
    split; [exact Hl1|]. split; [by eexists|]. by exists cn.
  - intros p v sg w1 H.
    assert (sg = true → v ≠ VNil) as Hv.
    { intros -> ->. rewrite (SetProperty_nil_signal t o p w Hl Hp) in H.
      discriminate H. }
    destruct (SetProperty_result t o p v sg w Hl Hp Hv)
      as (w1' & s & H' & Hl1 & Hp1 & _ & _ & Hconns & _).
    rewrite H' in H. injection H as <-.
    split; [exact Hl1|]. split; [by eexists|]. exists cn.
    split; [done|]. by rewrite Hconns.
  - intros n a w1 H.
    destruct (proj1 (live_inv t w) Hl) as (o0 & s & Ho0 & Hs & _).
    assert (o0 = o) as -> by congruence.
    rewrite (Emit_spec t o s n a w Ho Hs) in H. injection H as <-.
    split; [by eapply live_transfer|]. split; [by exists o|]. by exists cn.
  - intros i m os r w1 H.
    rewrite (AddMatchSignal_spec t c cn i m os w Hl Hb) in H.
    destruct (first_unsupported _); injection H as <- <-.
    + split; [exact Hl|]. split; [by exists o|by exists cn].
    + by apply Hconn.
  - intros i m os r w1 H.
    rewrite (RemoveMatchSignal_spec t c cn i m os w Hl Hb) in H.
    destruct (list_find _ _) as [[j m0]|]; injection H as <- <-.
    + by apply Hconn.
    + split; [exact Hl|]. split; [by exists o|by exists cn].
Qed.

(** X20: The record that [AddMatchSignal] or [RemoveMatchSignal] returns, on
    success and on failure, describes a call to the bus and not to the
    object: its destination and path are those of the bus, its method the
    expanded [AddMatch] or [RemoveMatch], its arguments a placeholder; it is
    never nil and has already been sent on its [Done] channel. *)
Theorem match_results_name_the_bus t iface member options w r w1 :
  AddMatchSignal t iface member options w = Returned r w1
  ∨ RemoveMatchSignal t iface member options w = Returned r w1 →
  ∃ c,
    r = Some c
    ∧ dbus.Destination c = bus
    ∧ dbus.Path c = busPath
    ∧ (dbus.Method c = expand bus "AddMatch"
       ∨ dbus.Method c = expand bus "RemoveMatch")
    ∧ dbus.Args c = [VString "should not matter"]
    ∧ dbus.Body c = []
    ∧ dbus.Done c = true.
Proof.
  set (P := fun r : option dbus.Call =>
              ∃ c, r = Some c ∧ dbus.Destination c = bus ∧ dbus.Path c = busPath
                   ∧ (dbus.Method c = expand bus "AddMatch"
                      ∨ dbus.Method c = expand bus "RemoveMatch")
                   ∧ dbus.Args c = [VString "should not matter"]
                   ∧ dbus.Body c = [] ∧ dbus.Done c = true).
  assert (∀ e, P (matchCallResult "AddMatch" e)) as HA
    by (intros e; eexists; split; [reflexivity|]; simpl; tauto).
  assert (∀ e, P (matchCallResult "RemoveMatch" e)) as HR
    by (intros e; eexists; split; [reflexivity|]; simpl; tauto).
  assert (returns_only P (AddMatchSignal t iface member options)) as HAdd.
  { unfold AddMatchSignal. cbv zeta. apply returns_only_bind. intros _.
    destruct (first_unsupported _); [by apply returns_only_ret|].
    destruct (conn t); [|apply returns_only_raise].
    do 4 (apply returns_only_bind; intro). by apply returns_only_ret. }
  assert (returns_only P (RemoveMatchSignal t iface member options)) as HRem.
  { unfold RemoveMatchSignal. cbv zeta. apply returns_only_bind. intros _.
    destruct (conn t); [|apply returns_only_raise].
    do 2 (apply returns_only_bind; intro).
    destruct (list_find _ _) as [[i m]|].
    - do 2 (apply returns_only_bind; intro). by apply returns_only_ret.
    - apply returns_only_bind; intro. by apply returns_only_ret. }
  intros [H|H]; [exact (HAdd _ _ _ H)|exact (HRem _ _ _ H)].
Qed.

End Aftermath.

(** ** More concrete worlds *)

Module Scenario.

(** The sample world with a second, open connection at address 1. *)
Definition two_conns : world :=
  set_conns (insert 1%nat (Sample.the_conn false)) (Sample.w0 true false).

(** The sample object as obtained from the second connection. *)
Definition bound1 : TestBusObject := {| obj := 0%nat; conn := Some 1%nat |}.

(** The sample world with the mutex of the object held. *)
Definition object_locked : world :=
  set_objects (insert 0%nat (set_mu true Sample.the_obj)) (Sample.w0 true false).

(** The sample world with the mutex of the connection held. *)
Definition conn_locked : world :=
  set_conns (insert 0%nat (set_conn_mu true (Sample.the_conn false)))
    (Sample.w0 true false).

(** Options with a key that [AddMatchSignal] refuses, alone. *)
Definition interface_only : list dbus.MatchOption :=
  [ {| dbus.key := "interface"; dbus.val := "org.example.Player" |} ].

End Scenario.

Section MoreExamples.
#[local] Existing Instance Sample.pkg.
#[local] Existing Instance Sample.rng.
#[local] Existing Instance Sample.cls.

Let live0 : live Sample.bound (Sample.w0 true false).
Proof. vm_compute. reflexivity. Defined.

Let points0 : points_to Sample.bound Sample.the_obj (Sample.w0 true false).
Proof. split; reflexivity. Defined.

Let bound0 :
  bound_to Sample.bound 0%nat (Sample.the_conn false) (Sample.w0 true false).
Proof. split; [|split]; reflexivity. Defined.

(** [echo] is registered, then the nil function: the method is gone. *)
Lemma On_last_registration_wins_witness :
  ∃ w1 w2 c,
    On Sample.bound "Ping" (Some Sample.echo) (Sample.w0 true false)
    = Returned tt w1
    ∧ On Sample.bound "Ping" None w1 = Returned tt w2
    ∧ On Sample.bound "Ping" None (Sample.w0 true false) = Returned tt w2
    ∧ Call Sample.bound "Ping" 0 [VInt 1] w2 = Returned (Some c) w2
    ∧ dbus.Err c = Some "No such method: org.example.Player.Ping".
Proof.
  destruct (On_last_registration_wins Sample.bound Sample.the_obj "Ping"
              (Some Sample.echo) None 0 [VInt 1]
              (Sample.w0 true false) live0 points0)
    as (w1 & w2 & o2 & H1 & H2 & H3 & _ & _ & c & Hc & _ & He).
  exists w1, w2, c. split; [exact H1|]. split; [exact H2|].
  split; [exact H3|]. split; [exact Hc|exact He].
Defined.

Lemma On_leaves_the_rest_witness :
  ∃ w1 o1 c,
    On Sample.bound "Ping" (Some Sample.echo) (Sample.w0 true false)
    = Returned tt w1
    ∧ props o1 = props Sample.the_obj
    ∧ emitted w1 = [] ∧ conns w1 = conns (Sample.w0 true false)
    ∧ GetProperty Sample.bound "Volume" w1
      = same_answer (GetProperty Sample.bound "Volume" (Sample.w0 true false)) w1
    ∧ Call Sample.bound "Pong" 0 [] w1 = Returned (Some c) w1
    ∧ dbus.Err c = Some "No such method: org.example.Player.Pong".
Proof.
  destruct (On_leaves_the_rest Sample.bound Sample.the_obj "Ping"
              (Some Sample.echo) (Sample.w0 true false) live0 points0)
    as (w1 & o1 & H1 & _ & _ & Hprops & _ & _ & _ & _ & Hem & Hco & _
        & HGet & HCall).
  assert (Hne : expand (dest Sample.the_obj) "Pong"
                ≠ expand (dest Sample.the_obj) "Ping")
    by (intros H; vm_compute in H; discriminate H).
  destruct (HCall "Pong" 0 [] Hne eq_refl) as (c & _ & Hc & He).
  exists w1, o1, c. split; [exact H1|]. split; [exact Hprops|].
  split; [exact Hem|]. split; [exact Hco|]. split; [exact (HGet "Volume")|].
  split; [exact Hc|exact He].
Defined.

(** Registered through the handle of the closed connection, found through
    the handle that came from the service. *)
Lemma On_seen_through_other_handle_witness :
  ∃ w1 o1,
    On Sample.bound "Ping" (Some Sample.pinger) (Sample.w0 true true)
    = Returned tt w1
    ∧ points_to Sample.unbound o1 w1
    ∧ lookup_call o1 (expand (dest o1) "Ping") = Some Sample.pinger.
Proof.
  assert (Hl : live Sample.unbound (Sample.w0 true true))
    by (vm_compute; reflexivity).
  assert (Hp : points_to Sample.bound Sample.the_obj (Sample.w0 true true))
    by (split; reflexivity).
  destruct (On_seen_through_other_handle Sample.bound Sample.unbound
              Sample.the_obj "Ping" Sample.pinger 0 [VInt 1]
              (Sample.w0 true true) eq_refl Hl Hp)
    as (w1 & o1 & H1 & H2 & H3 & _).
  exists w1, o1. split; [exact H1|]. split; [exact H2|exact H3].
Defined.






End MoreExamples.

Section MatchScenarios.
#[local] Existing Instance Sample.pkg.
#[local] Existing Instance Sample.rng.
#[local] Existing Instance Sample.cls.

Let live0 : live Sample.bound (Sample.w0 true false).
Proof. vm_compute. reflexivity. Defined.

Let points0 : points_to Sample.bound Sample.the_obj (Sample.w0 true false).
Proof. split; reflexivity. Defined.

Let bound0 :
  bound_to Sample.bound 0%nat (Sample.the_conn false) (Sample.w0 true false).
Proof. split; [|split]; reflexivity. Defined.

(** A connection that holds, under one name, a rule, the good options and
    the good options again. *)
Definition conn_with_rules : testBusConnection :=
  {| conn_mu := false; closed := false;
     matches := {[ "org.example.Player.Seeked" :=
                     [ (∅ : rule); dbusMatchOptionMap Sample.good_options;
                       dbusMatchOptionMap Sample.good_options ] ]} |}.

Definition world_with_rules : world :=
  set_conns (insert 0%nat conn_with_rules) (Sample.w0 true false).

Lemma RemoveMatchSignal_removes_first_occurrence_witness :
  ∃ r w1 cn1 l1 l2,
    RemoveMatchSignal Sample.bound "org.example.Player" "Seeked"
      Sample.good_options world_with_rules = Returned (Some r) w1
    ∧ dbus.Err r = None
    ∧ conns w1 !! 0%nat = Some cn1
    ∧ lookup_matches conn_with_rules "org.example.Player.Seeked"
      = l1 ++ (dbusMatchOptionMap Sample.good_options :: l2)
    ∧ (dbusMatchOptionMap Sample.good_options ∉ l1)
    ∧ lookup_matches cn1 "org.example.Player.Seeked" = l1 ++ l2.
Proof.
  assert (Hl : live Sample.bound world_with_rules) by (vm_compute; reflexivity).
  assert (Hb : bound_to Sample.bound 0%nat conn_with_rules world_with_rules)
    by (split; [|split]; reflexivity).
  assert (Hin : dbusMatchOptionMap Sample.good_options
                ∈ lookup_matches conn_with_rules
                    ("org.example.Player" +:+ "." +:+ "Seeked")).
  { unfold lookup_matches, conn_with_rules. simpl.
    rewrite lookup_singleton_eq. simpl.
    apply elem_of_cons. right. apply elem_of_cons. left. reflexivity. }
  destruct (RemoveMatchSignal_removes_first_occurrence Sample.bound 0%nat
              conn_with_rules "org.example.Player" "Seeked" Sample.good_options
              world_with_rules Hl Hb Hin)
    as (r & w1 & cn1 & l1 & l2 & H1 & H2 & H3 & H4 & H5 & H6 & _).
  exists r, w1, cn1, l1, l2.
  split; [exact H1|]. split; [exact H2|]. split; [exact H3|].
  split; [exact H4|]. split; [exact H5|exact H6].
Defined.

(** Nothing was ever subscribed, and the key would have been refused. *)
Lemma RemoveMatchSignal_not_found_witness :
  ∃ r,
    RemoveMatchSignal Sample.bound "org.example.Player" "Seeked"
      Scenario.interface_only (Sample.w0 true false)
    = Returned (Some r) (Sample.w0 true false)
    ∧ dbus.Err r = Some "Match not found"
    ∧ dbus.Method r = "org.freedesktop.DBus.RemoveMatch".
Proof.
  assert (Hnotin : dbusMatchOptionMap Scenario.interface_only
                   ∉ lookup_matches (Sample.the_conn false)
                       ("org.example.Player" +:+ "." +:+ "Seeked"))
    by apply not_elem_of_nil.
  destruct (RemoveMatchSignal_not_found Sample.bound 0%nat
              (Sample.the_conn false) "org.example.Player" "Seeked"
              Scenario.interface_only (Sample.w0 true false)
              live0 bound0 Hnotin) as (r & H1 & H2 & H3).
  exists r. split; [exact H1|]. split; [exact H2|exact H3].
Defined.

Lemma AddMatchSignal_twice_needs_two_removals_witness :
  ∃ a1 w1 a2 w2 r1 w3 r2 w4 r3,
    AddMatchSignal Sample.bound "org.example.Player" "Seeked"
      Sample.good_options (Sample.w0 true false) = Returned (Some a1) w1
    ∧ AddMatchSignal Sample.bound "org.example.Player" "Seeked"
        Sample.good_options w1 = Returned (Some a2) w2
    ∧ RemoveMatchSignal Sample.bound "org.example.Player" "Seeked"
        Sample.good_options w2 = Returned (Some r1) w3
    ∧ RemoveMatchSignal Sample.bound "org.example.Player" "Seeked"
        Sample.good_options w3 = Returned (Some r2) w4
    ∧ RemoveMatchSignal Sample.bound "org.example.Player" "Seeked"
        Sample.good_options w4 = Returned (Some r3) w4
    ∧ dbus.Err r1 = None ∧ dbus.Err r2 = None
    ∧ dbus.Err r3 = Some "Match not found".
Proof.
  assert (Hnotin : dbusMatchOptionMap Sample.good_options
                   ∉ lookup_matches (Sample.the_conn false)
                       ("org.example.Player" +:+ "." +:+ "Seeked"))
    by apply not_elem_of_nil.
  destruct (AddMatchSignal_twice_needs_two_removals Sample.bound 0%nat
              (Sample.the_conn false) "org.example.Player" "Seeked"
              Sample.good_options (Sample.w0 true false) live0 bound0
              good_options_supported)
    as (a1 & w1 & a2 & w2 & r1 & w3 & r2 & w4 & cn2 & cn4
        & H1 & H2 & H3 & H4 & _ & _ & H6 & H7 & _ & _ & _ & _ & Hlast).
  destruct (Hlast Hnotin) as (_ & r3 & H5 & H8).
  exists a1, w1, a2, w2, r1, w3, r2, w4, r3.
  split; [exact H1|]. split; [exact H2|]. split; [exact H3|].
  split; [exact H4|]. split; [exact H5|]. split; [exact H6|].
  split; [exact H7|exact H8].
Defined.

Lemma match_table_keeps_supported_keys_witness :
  (∃ r w1 cn1,
     AddMatchSignal Sample.bound "org.example.Player" "Seeked"
       Sample.bad_options (Sample.w0 true false) = Returned r w1
     ∧ conns w1 !! 0%nat = Some cn1 ∧ rules_supported cn1)
  ∧ (∃ r w1 cn1,
       RemoveMatchSignal Sample.bound "org.example.Player" "Seeked"
         Sample.bad_options (Sample.w0 true false) = Returned r w1
       ∧ conns w1 !! 0%nat = Some cn1 ∧ rules_supported cn1).
Proof.
  assert (Hinv : rules_supported (Sample.the_conn false)).
  { intros name ms m k H. simpl in H. rewrite lookup_empty in H.
    discriminate H. }
  exact (match_table_keeps_supported_keys Sample.bound 0%nat
           (Sample.the_conn false) "org.example.Player" "Seeked"
           Sample.bad_options (Sample.w0 true false) live0 bound0 Hinv).
Defined.

(** Subscribed as [org.example] / [Player.Seeked], removed as
    [org.example.Player] / [Seeked]. *)
Lemma match_name_is_the_concatenation_witness :
  ∃ a w1 r w2,
    AddMatchSignal Sample.bound "org.example" "Player.Seeked"
      Sample.good_options (Sample.w0 true false) = Returned (Some a) w1
    ∧ dbus.Err a = None
    ∧ RemoveMatchSignal Sample.bound "org.example.Player" "Seeked"
        Sample.good_options w1 = Returned (Some r) w2
    ∧ dbus.Err r = None.
Proof.
  exact (match_name_is_the_concatenation Sample.bound 0%nat
           (Sample.the_conn false) "org.example" "Player.Seeked"
           "org.example.Player" "Seeked" Sample.good_options
           (Sample.w0 true false) live0 bound0 good_options_supported eq_refl).
Defined.

Lemma match_rules_are_per_connection_witness :
  ∃ a w1 r,
    AddMatchSignal Sample.bound "org.example.Player" "Seeked"
      Sample.good_options Scenario.two_conns = Returned (Some a) w1
    ∧ dbus.Err a = None
    ∧ conns w1 !! 1%nat = conns Scenario.two_conns !! 1%nat
    ∧ RemoveMatchSignal Scenario.bound1 "org.example.Player" "Seeked"
        Sample.good_options w1 = Returned (Some r) w1
    ∧ dbus.Err r = Some "Match not found".
Proof.
  assert (Hl1 : live Sample.bound Scenario.two_conns)
    by (vm_compute; reflexivity).
  assert (Hl2 : live Scenario.bound1 Scenario.two_conns)
    by (vm_compute; reflexivity).
  assert (Hb1 : bound_to Sample.bound 0%nat (Sample.the_conn false)
                  Scenario.two_conns)
    by (split; [|split]; reflexivity).
  assert (Hb2 : bound_to Scenario.bound1 1%nat (Sample.the_conn false)
                  Scenario.two_conns)
    by (split; [|split]; reflexivity).
  assert (Hne : 1%nat ≠ 0%nat) by discriminate.
  assert (Hnotin : dbusMatchOptionMap Sample.good_options
                   ∉ lookup_matches (Sample.the_conn false)
                       ("org.example.Player" +:+ "." +:+ "Seeked"))
    by apply not_elem_of_nil.
  destruct (match_rules_are_per_connection Sample.bound 0%nat
              (Sample.the_conn false) "org.example.Player" "Seeked"
              Sample.good_options Scenario.two_conns Hl1 Hb1
              good_options_supported)
    as (a & w1 & Ha & Herr & Hframe & _ & _ & Hrem).
  destruct (Hrem Scenario.bound1 1%nat (Sample.the_conn false)
              Hne Hl2 Hb2 Hnotin) as (r & Hr & Herr').
  exists a, w1, r. split; [exact Ha|]. split; [exact Herr|].
  split; [exact (Hframe 1%nat Hne)|]. split; [exact Hr|exact Herr'].
Defined.

Lemma match_operations_need_a_connection_witness :
  RemoveMatchSignal Sample.unbound "org.example.Player" "Seeked"
    Sample.good_options (Sample.w0 true false) = Panicked NilDereference
  ∧ AddMatchSignal Sample.unbound "org.example.Player" "Seeked"
      Sample.good_options (Sample.w0 true false) = Panicked NilDereference.
Proof.
  assert (Hl : live Sample.unbound (Sample.w0 true false))
    by (vm_compute; reflexivity).
  destruct (match_operations_need_a_connection Sample.unbound
              "org.example.Player" "Seeked" Sample.good_options
              (Sample.w0 true false) Hl eq_refl) as (Hrem & Hadd & _).
  split; [exact Hrem|exact (Hadd good_options_supported)].
Defined.

Lemma AddMatchSignal_validates_before_locking_witness :
  RemoveMatchSignal Sample.bound "org.example.Player" "Seeked"
    Sample.good_options Scenario.conn_locked = Blocked
  ∧ AddMatchSignal Sample.bound "org.example.Player" "Seeked"
      Sample.good_options Scenario.conn_locked = Blocked
  ∧ ∃ r k,
      AddMatchSignal Sample.bound "org.example.Player" "Seeked"
        Sample.bad_options Scenario.conn_locked
      = Returned (Some r) Scenario.conn_locked
      ∧ supported k = false
      ∧ dbus.Err r = Some ("Unsupported match type: " +:+ k).
Proof.
  assert (Hl : live Sample.bound Scenario.conn_locked)
    by (vm_compute; reflexivity).
  destruct (AddMatchSignal_validates_before_locking Sample.bound 0%nat
              (set_conn_mu true (Sample.the_conn false))
              "org.example.Player" "Seeked" Sample.good_options
              Scenario.conn_locked Hl eq_refl eq_refl eq_refl)
    as (Hrem & Hadd & _).
  destruct (AddMatchSignal_validates_before_locking Sample.bound 0%nat
              (set_conn_mu true (Sample.the_conn false))
              "org.example.Player" "Seeked" Sample.bad_options
              Scenario.conn_locked Hl eq_refl eq_refl eq_refl)
    as (_ & _ & Hbad).
  split; [exact Hrem|]. split; [exact (Hadd good_options_supported)|].
  apply Hbad. exists "interface". split; [exact bad_options_unsupported|].
  vm_compute. reflexivity.
Defined.

Lemma object_mutex_held_witness :
  Call Sample.bound "Ping" 0 [] Scenario.object_locked = Blocked
  ∧ GetProperty Sample.bound "Volume" Scenario.object_locked = Blocked
  ∧ SetProperty Sample.bound "Volume" (VInt 3) true Scenario.object_locked
    = Blocked
  ∧ On Sample.bound "Ping" None Scenario.object_locked = Blocked
  ∧ Destination Sample.bound Scenario.object_locked
    = Returned "org.example.Player" Scenario.object_locked
  ∧ Path Sample.bound Scenario.object_locked
    = Returned "/org/example/Player" Scenario.object_locked.
Proof.
  assert (Hl : live Sample.bound Scenario.object_locked)
    by (vm_compute; reflexivity).
  destruct (object_mutex_held Sample.bound (set_mu true Sample.the_obj)
              (Sample.the_svc true) Scenario.object_locked
              Hl eq_refl eq_refl eq_refl)
    as (HCall & HGet & HSet & HOn & HDest & HPath & _).
  split; [exact (HCall "Ping" 0 [])|]. split; [exact (HGet "Volume")|].
  split; [exact (HSet "Volume" (VInt 3) true)|].
  split; [exact (HOn "Ping" None)|]. split; [exact HDest|exact HPath].
Defined.

(** A call that returned: the object was live, the world is unchanged. *)
Lemma reads_leave_the_world_witness :
  ∃ c,
    Call Sample.bound "Ping" 0 [VInt 1] (Sample.w0 true false)
    = Returned (Some c) (Sample.w0 true false)
    ∧ live Sample.bound (Sample.w0 true false)
    ∧ dbus.Done c = true ∧ dbus.Args c = [VInt 1].
Proof.
  assert (Hcall : Call Sample.bound "Ping" 0 [VInt 1] (Sample.w0 true false)
                  = Returned
                      (Some (dbus.with_Err
                               (errors.New
                                  ("No such method: "
                                   +:+ expand (dest Sample.the_obj) "Ping"))
                               (call_sent Sample.the_obj "Ping" [VInt 1])))
                      (Sample.w0 true false)).
  { rewrite (Call_spec Sample.bound Sample.the_obj "Ping" 0 [VInt 1]
               (Sample.w0 true false) live0 points0). reflexivity. }
  destruct (reads_leave_the_world Sample.bound (Sample.w0 true false))
    as (_ & _ & _ & HCall).
  destruct (HCall "Ping" 0 [VInt 1] _ _ Hcall) as (Hl & (c & Hc & Hd & Ha) & _).
  exists c. rewrite <- Hc. split; [exact Hcall|]. split; [exact Hl|].
  split; [exact Hd|exact Ha].
Defined.

Lemma operations_release_their_locks_witness :
  ∃ w1,
    On Sample.bound "Ping" (Some Sample.echo) (Sample.w0 true false)
    = Returned tt w1
    ∧ quiet Sample.bound 0%nat w1.
Proof.
  assert (Hq : quiet Sample.bound 0%nat (Sample.w0 true false)).
  { split; [exact live0|].
    split; [exists Sample.the_obj; exact points0|].
    exists (Sample.the_conn false). exact bound0. }
  pose proof (On_spec Sample.bound Sample.the_obj "Ping" (Some Sample.echo)
                (Sample.w0 true false) points0) as HOn.
  destruct (operations_release_their_locks Sample.bound 0%nat
              (Sample.w0 true false) Hq) as (Hon & _).
  eexists. split; [exact HOn|]. exact (Hon _ _ _ HOn).
Defined.

Lemma match_results_name_the_bus_witness :
  ∃ r w1 c,
    RemoveMatchSignal Sample.bound "org.example.Player" "Seeked"
      Sample.good_options (Sample.w0 true false) = Returned r w1
    ∧ r = Some c
    ∧ dbus.Destination c = "org.freedesktop.DBus"
    ∧ dbus.Path c = "/org/freedesktop/DBus"
    ∧ dbus.Args c = [VString "should not matter"]
    ∧ dbus.Done c = true.
Proof.
  assert (Hnotin : dbusMatchOptionMap Sample.good_options
                   ∉ lookup_matches (Sample.the_conn false)
                       ("org.example.Player" +:+ "." +:+ "Seeked"))
    by apply not_elem_of_nil.
  pose proof (RemoveMatchSignal_absent Sample.bound 0%nat
                (Sample.the_conn false) "org.example.Player" "Seeked"
                Sample.good_options (Sample.w0 true false) live0 bound0 Hnotin)
    as Hr.
  destruct (matchCallResult_Some "RemoveMatch" (Some "Match not found"))
    as (r & Hsr & _).
  rewrite Hsr in Hr.
  destruct (match_results_name_the_bus Sample.bound "org.example.Player"
              "Seeked" Sample.good_options (Sample.w0 true false)
              (Some r) (Sample.w0 true false) (or_intror Hr))
    as (c & Hc & Hd & Hp & _ & Ha & _ & Hdone).
  exists (Some r), (Sample.w0 true false), c.
  split; [exact Hr|]. split; [exact Hc|]. split; [exact Hd|].
  split; [exact Hp|]. split; [exact Ha|exact Hdone].
Defined.

End MatchScenarios.
